(** * Pet-feeder monitoring job: aggregation, alert logic and dispatch

    Shallow embedding of [src/jobs/pet-feeder/main.py].

    Conventions of the embedding.
    - Python [int] is [Z] (track ids, class ids, [last_num_empty]); a
      [len(...)] is a [nat], injected into [Z] where the source compares it
      with a value read from the state file.
    - Python [float] confidences are exact rationals [Q]; every comparison
      of two confidences is [Qeq] (written [==]).  The constant [0.75] is
      the rational [3/4] (it is a dyadic number, exact as a float too).
      Where the rounding of the arithmetic matters, the aggregation is
      embedded a second time on binary64 numbers ([aggregate64]).
    - The [objects] dict is an association list in insertion order, the
      order in which a Python dict iterates.
    - The state dict read from [monitor_state.json] is a [gmap string Z].
    - Side effects (log lines, HTTP posts, the snapshot file, the state
      file) are recorded in a [world]: the current content of the state file
      and the trace of effects performed so far, oldest first. *)

From stdpp Require Import gmap strings.
From Stdlib Require Import PrimFloat.
From Stdlib Require Uint63.
From Stdlib Require Import ZArith QArith List Permutation Lia Bool Sorted.
Import ListNotations.

Local Open Scope Z_scope.

(** ** Configuration (module-level constants of the source) *)

Definition FRAMES_TO_PROCESS : nat := 20.
Definition CLASS_VAZIO : Z := 0.
Definition CLASS_RACAO : Z := 1.

(** ** The Python builtins the analysis uses *)

Module Py.

(** [sum(xs)] on floats: left to right from the integer 0. *)
Definition sum (xs : list Q) : Q := fold_left Qplus xs (0 : Q).

(** [xs.count(c)]. *)
Definition count (xs : list Z) (c : Z) : nat := count_occ Z.eq_dec xs c.

(** [set(xs)] followed by iteration.  CPython stores a small non-negative
    int [k] of a set in slot [k land mask] of a table of at least 8 slots
    and iterates the slots upwards, so for class ids in [0, 8) (no two of
    them share a slot) a set is iterated in ascending order whatever the
    insertion order was.  [set_add] keeps the slots as a strictly
    ascending list. *)
Fixpoint set_add (c : Z) (s : list Z) : list Z :=
  match s with
  | [] => [c]
  | x :: s' =>
      if c <? x then c :: s
      else if c =? x then s
      else x :: set_add c s'
  end.

Definition set (xs : list Z) : list Z :=
  fold_left (fun s c => set_add c s) xs [].

(** [max(it, key=f)]: the first element, in iteration order, whose key is
    not exceeded by a later one (a later element replaces the current
    best only when its key is strictly greater). [None] is the
    [ValueError] of an empty iterable. *)
Fixpoint max_from {A} (key : A -> nat) (best : A) (rest : list A) : A :=
  match rest with
  | [] => best
  | x :: rest' =>
      max_from key (if (key best <? key x)%nat then x else best) rest'
  end.

Definition max {A} (key : A -> nat) (it : list A) : option A :=
  match it with
  | [] => None
  | x :: rest => Some (max_from key x rest)
  end.

(** [a / n] for a float [a] and a length [n]; [None] is
    [ZeroDivisionError]. *)
Definition div (a : Q) (n : nat) : option Q :=
  match n with
  | O => None
  | S _ => Some (a / inject_Z (Z.of_nat n))%Q
  end.

End Py.

(** ** Data collected in a cycle *)

(** One entry of [detections], a dict with keys id, cls and conf. *)
Record detection := Detection { d_id : Z; d_cls : Z; d_conf : Q }.

(** One value of the [objects] dict, with keys votes and confs. *)
Record group := Group { votes : list Z; confs : list Q }.

(** One entry of [final_objects]. *)
Record object := Object { o_id : Z; o_cls : Z; o_conf : Q }.

(** ** Aggregation by track id (lines 159-166) *)

(** The body of the [for d in detections] loop on the dict [objs]: a new
    key goes to the end, an existing key keeps its position. *)
Fixpoint objects_add (oid c : Z) (p : Q) (objs : list (Z * group))
  : list (Z * group) :=
  match objs with
  | [] => [(oid, Group [c] [p])]
  | (k, g) :: rest =>
      if k =? oid
      then (k, Group (votes g ++ [c]) (confs g ++ [p])) :: rest
      else (k, g) :: objects_add oid c p rest
  end.

Definition group_by_id (detections : list detection) : list (Z * group) :=
  fold_left (fun objs d => objects_add (d_id d) (d_cls d) (d_conf d) objs)
            detections [].

(** ** Majority vote and confidence averaging (lines 168-180) *)

Definition majority_vote (vs : list Z) : option Z :=
  Py.max (Py.count vs) (Py.set vs).

Record tally := Tally {
  final_objects : list object;
  total_conf : Q;
  count_conf : nat
}.

(** One iteration of [for oid, data in objects.items()]. *)
Definition tally_step (t : tally) (kv : Z * group) : option tally :=
  let '(oid, data) := kv in
  class_id ← majority_vote (votes data);
  avg_conf ← Py.div (Py.sum (confs data)) (length (confs data));
  Some (Tally (final_objects t ++ [Object oid class_id avg_conf])
              (total_conf t + Py.sum (confs data))%Q
              (count_conf t + length (confs data))%nat).

Fixpoint tally_loop (t : tally) (objs : list (Z * group)) : option tally :=
  match objs with
  | [] => Some t
  | kv :: rest => t' ← tally_step t kv; tally_loop t' rest
  end.

Definition tally_objects (objs : list (Z * group)) : option tally :=
  tally_loop (Tally [] 0 0) objs.

(** ** Metrics (lines 182-195) *)

(** [final_objects.sort(key=lambda x: x['id'])]: a stable sort by id. *)
Fixpoint insert_by_id (o : object) (l : list object) : list object :=
  match l with
  | [] => [o]
  | x :: rest =>
      if o_id o <? o_id x then o :: l else x :: insert_by_id o rest
  end.

Definition sort_by_id (l : list object) : list object :=
  fold_left (fun sorted o => insert_by_id o sorted) l [].

Record metrics := Metrics {
  sorted_objects : list object;
  total_potes : nat;
  num_empty : Z;
  pct_empty : Q;
  avg_confidence : Q;
  empty_ids : list Z
}.

Definition compute_metrics (t : tally) : metrics :=
  let sorted := sort_by_id (final_objects t) in
  let total := length sorted in
  let empty_potes := List.filter (fun o => o_cls o =? CLASS_VAZIO) sorted in
  let n := length empty_potes in
  Metrics sorted total (Z.of_nat n)
    (match total with
     | O => 0
     | S _ => inject_Z (Z.of_nat n) / inject_Z (Z.of_nat total) * 100
     end)%Q
    (match count_conf t with
     | O => 0
     | S _ => total_conf t / inject_Z (Z.of_nat (count_conf t))
     end)%Q
    (map o_id empty_potes).

(** The whole analysis of a list of detections; [None] would be an
    exception raised in the loop of lines 172-180. *)
Definition analyse (detections : list detection) : option metrics :=
  compute_metrics <$> tally_objects (group_by_id detections).

(** ** Alert logic and suppression (lines 218-251) *)

(** The text appended to [alerts], by the rule that appends it:
    [YellowWarning] is the line 'Alerta (Amarelo): 4 Potes Vazios.',
    [RedAlert n] is 'Alerta (Vermelho): n Potes Vazios!', [Recovery] is
    'Recuperacao: Situacao normalizada (Menos de 4 vazios).' and
    [HealthWarning c] is 'Alerta de Saude: Confianca baixa (c).' *)
Inductive alert :=
| YellowWarning
| RedAlert (n : Z)
| Recovery
| HealthWarning (avg : Q).

Definition GREEN : Z := 0x00ff00.
Definition YELLOW : Z := 0xffa500.
Definition RED : Z := 0xff0000.

Record decision := Decision {
  color : Z;
  alerts : list alert;
  should_alert : bool
}.

(** The [if num_empty == 4 / elif num_empty >= 5 / else] chain. *)
Definition threshold_rules (n last_num_empty : Z) : decision :=
  if n =? 4 then
    if negb (n =? last_num_empty)
    then Decision YELLOW [YellowWarning] true
    else Decision YELLOW [] false
  else if n >=? 5 then
    if negb (n =? last_num_empty)
    then Decision RED [RedAlert n] true
    else Decision RED [] false
  else
    if last_num_empty >=? 4
    then Decision GREEN [Recovery] true
    else Decision GREEN [] false.

(** [avg < 0.75] on confidences. *)
Definition conf_below (avg bound : Q) : bool := negb (Qle_bool bound avg).

(** The health check that follows the chain. *)
Definition health_check (avg : Q) (d : decision) : decision :=
  if conf_below avg (3#4)
  then Decision RED (alerts d ++ [HealthWarning avg]) true
  else d.

Definition alert_logic (n last_num_empty : Z) (avg : Q) : decision :=
  health_check avg (threshold_rules n last_num_empty).

(** ** State store (lines 36-47) *)

(** What [monitor_state.json] can hold: nothing (no file), something
    [json.load] rejects, or a JSON object with integer members, which is
    all [save_state] ever writes. *)
Inductive file :=
| Absent
| Corrupt
| Json (st : gmap string Z).

Definition load_state (f : file) : gmap string Z :=
  match f with
  | Json st => st
  | Absent | Corrupt => ∅
  end.

(** [state.get] of the key last_num_empty, with default -1. *)
Definition get_last_num_empty (st : gmap string Z) : Z :=
  default (-1) (st !! "last_num_empty"%string).

(** ** Effects *)

(** A rendered frame ([results[0].plot()]), identified by a number. *)
Definition image := nat.

Record telemetry := Telemetry {
  t_potes_total : nat;
  t_potes_empty : Z;
  t_pct_empty : Q;      (* sent rounded to 1 decimal *)
  t_model_health : Q;   (* sent rounded to 3 decimals *)
  t_empty_ids : list Z
}.

Record embed := Embed {
  e_color : Z;
  e_num_empty : Z;
  e_total_potes : nat;
  e_pct_empty : Q;
  e_empty_ids : list Z;
  e_health : Q
}.

(** The [message] argument of [send_discord]. *)
Inductive content :=
| ModelNotFoundMsg
| RtspMsg
| AlertLines (lines : list alert).

Inductive log_line :=
| OutsideHours | Starting | ModelNotFound | ModelLoadError | RtspError
| InferenceLoopError | NoFrames | Result | ThingsboardOutcome
| DiscordOutcome | SkippingAlert.

Inductive effect :=
| Log (l : log_line)
| ThingsboardPost (t : telemetry)
| ImWrite (img : image)
| DiscordPost (c : content) (e : option embed) (img : option image)
| StateWrite (st : gmap string Z)
| Uncaught.   (* an exception leaves [run_inference_cycle] *)

Record world := World {
  state_file : file;
  trace : list effect
}.

Definition emit (e : effect) (w : world) : world :=
  World (state_file w) (trace w ++ [e]).

Definition save_state (st : gmap string Z) (w : world) : world :=
  World (Json st) (trace w ++ [StateWrite st]).

(** [send_thingsboard]: one POST, whose outcome is logged. *)
Definition send_thingsboard (t : telemetry) (w : world) : world :=
  emit (Log ThingsboardOutcome) (emit (ThingsboardPost t) w).

(** [send_discord]: one POST (with the image when there is one), whose
    outcome is logged; an exception of the POST is caught inside. *)
Definition send_discord (c : content) (e : option embed) (img : option image)
    (w : world) : world :=
  emit (Log DiscordOutcome) (emit (DiscordPost c e img) w).

(** ** The inference cycle (lines 84-283) *)

(** What one turn of the capture loop meets: a failed read ([ret] is
    false), an exception in [model.track] or in [plot], an exception after
    [plot] (when some boxes may already have been appended), or a frame
    processed to the end.  [boxes] is empty when the result has no boxes or
    no ids. *)
Inductive frame :=
| ReadFailed
| TrackFailed
| ExtractFailed (annotated : image) (boxes : list detection)
| Tracked (annotated : image) (boxes : list detection).

Record env := Env {
  hour : Z;
  model_exists : bool;   (* [os.path.exists(MODEL_PATH)] *)
  model_loads : bool;    (* [YOLO(MODEL_PATH)] does not raise *)
  stream_opens : bool;   (* [cap.isOpened()] *)
  stream : list frame    (* what the successive [cap.read()] give *)
}.

Record capture := Capture {
  detections : list detection;
  last_annotated_frame : option image;
  frames_processed : nat
}.

(** The [while frames_processed < FRAMES_TO_PROCESS] loop; a stream that
    has nothing left reads as [ret = False]. *)
Fixpoint capture_loop (frames : list frame) (c : capture) (w : world)
  : capture * world :=
  if (frames_processed c <? FRAMES_TO_PROCESS)%nat then
    match frames with
    | [] | ReadFailed :: _ => (c, w)
    | TrackFailed :: _ => (c, emit (Log InferenceLoopError) w)
    | ExtractFailed img boxes :: _ =>
        (Capture (detections c ++ boxes) (Some img) (frames_processed c),
         emit (Log InferenceLoopError) w)
    | Tracked img boxes :: rest =>
        capture_loop rest
          (Capture (detections c ++ boxes) (Some img)
                   (S (frames_processed c)))
          w
    end
  else (c, w).

(** Lines 199-283, once the metrics are there. *)
Definition report (m : metrics) (last_frame : option image) (w : world)
  : world :=
  let w := emit (Log Result) w in
  let state := load_state (state_file w) in
  let w := send_thingsboard
             (Telemetry (total_potes m) (num_empty m) (pct_empty m)
                        (avg_confidence m) (empty_ids m)) w in
  let last_num_empty := get_last_num_empty state in
  let d := alert_logic (num_empty m) last_num_empty (avg_confidence m) in
  let e := Embed (color d) (num_empty m) (total_potes m) (pct_empty m)
                 (empty_ids m) (avg_confidence m) in
  let w :=
    if should_alert d then
      let msg_content := AlertLines (alerts d) in
      let w := match last_frame with
               | Some img => emit (ImWrite img) w
               | None => w
               end in
      let w := send_discord msg_content (Some e) last_frame w in
      send_discord msg_content (Some e) last_frame w
    else emit (Log SkippingAlert) w in
  save_state (<["last_num_empty"%string := num_empty m]> state) w.

Definition run_inference_cycle (e : env) (w : world) : world :=
  if (hour e <? 6) || (hour e >=? 21) then emit (Log OutsideHours) w
  else
    let w := emit (Log Starting) w in
    if negb (model_exists e) then
      send_discord ModelNotFoundMsg None None (emit (Log ModelNotFound) w)
    else if negb (model_loads e) then emit (Log ModelLoadError) w
    else if negb (stream_opens e) then
      send_discord RtspMsg None None (emit (Log RtspError) w)
    else
      let '(c, w) := capture_loop (stream e) (Capture [] None 0) w in
      if (frames_processed c =? 0)%nat then emit (Log NoFrames) w
      else
        match analyse (detections c) with
        | None => emit Uncaught w
        | Some m => report m (last_annotated_frame c) w
        end.

(** ** Vocabulary for the statements about a cycle *)

(** The effects performed between two worlds of one run. *)
Definition new_effects (w w' : world) : list effect :=
  skipn (length (trace w)) (trace w').

(** The posts made to the Discord webhook, in order. *)
Definition discord_posts (tr : list effect) : list effect :=
  List.filter
    (fun e => match e with DiscordPost _ _ _ => true | _ => false end) tr.

(** The alert lines that reached the Discord webhook. *)
Fixpoint posted_alerts (tr : list effect) : list alert :=
  match tr with
  | [] => []
  | DiscordPost (AlertLines lines) _ _ :: rest => lines ++ posted_alerts rest
  | _ :: rest => posted_alerts rest
  end.

(** The writes of the state file. *)
Fixpoint state_writes (tr : list effect) : list (gmap string Z) :=
  match tr with
  | [] => []
  | StateWrite st :: rest => st :: state_writes rest
  | _ :: rest => state_writes rest
  end.

Definition in_hours (e : env) : bool :=
  negb ((hour e <? 6) || (hour e >=? 21)).

(** What the capture loop of a cycle collects. *)
Definition captured (e : env) : capture :=
  fst (capture_loop (stream e) (Capture [] None 0) (World Absent [])).

(** The cycle gets past every early [return]: it is inside the operating
    hours, the model file exists and loads, the stream opens and at least
    one frame was processed. *)
Definition reaches_report (e : env) : bool :=
  in_hours e && model_exists e && model_loads e && stream_opens e
  && negb (frames_processed (captured e) =? 0)%nat.

(** The decision the alert logic takes for the metrics [m] in the world
    [w], the embed built from it and the state saved at the end. *)
Definition cycle_decision (m : metrics) (w : world) : decision :=
  alert_logic (num_empty m) (get_last_num_empty (load_state (state_file w)))
              (avg_confidence m).

Definition cycle_embed (m : metrics) (w : world) : embed :=
  Embed (color (cycle_decision m w)) (num_empty m) (total_potes m)
        (pct_empty m) (empty_ids m) (avg_confidence m).

Definition cycle_telemetry (m : metrics) : telemetry :=
  Telemetry (total_potes m) (num_empty m) (pct_empty m) (avg_confidence m)
            (empty_ids m).

Definition next_state (m : metrics) (w : world) : gmap string Z :=
  <["last_num_empty"%string := num_empty m]> (load_state (state_file w)).

(** A threshold event, as opposed to recovery and health. *)
Definition is_threshold (a : alert) : bool :=
  match a with
  | YellowWarning | RedAlert _ => true
  | Recovery | HealthWarning _ => false
  end.

(** The effects of the [if should_alert] statement (lines 266-279), used to
    write the trace of [report] as one list. *)
Definition dispatch_effects (d : decision) (e : embed)
    (last_frame : option image) : list effect :=
  if should_alert d then
    match last_frame with Some img => [ImWrite img] | None => [] end
    ++ [DiscordPost (AlertLines (alerts d)) (Some e) last_frame;
        Log DiscordOutcome;
        DiscordPost (AlertLines (alerts d)) (Some e) last_frame;
        Log DiscordOutcome]
  else [Log SkippingAlert].

(** ** Vocabulary for the statements about the analysis *)

(** The detections of track [k], in arrival order. *)
Definition dets_of (k : Z) (ds : list detection) : list detection :=
  List.filter (fun d => d_id d =? k) ds.

(** The votes and confidences of track [k]. *)
Definition group_of (k : Z) (ds : list detection) : group :=
  Group (map d_cls (dets_of k ds)) (map d_conf (dets_of k ds)).

(** The keys of the [objects] dict: the track ids in order of first
    appearance. *)
Fixpoint keys_add (k : Z) (ks : list Z) : list Z :=
  match ks with
  | [] => [k]
  | x :: rest => if x =? k then ks else x :: keys_add k rest
  end.

Definition track_ids (ds : list detection) : list Z :=
  fold_left (fun ks d => keys_add (d_id d) ks) ds [].

(** The same keys in the order [sort] leaves them in. *)
Fixpoint insert_id (k : Z) (l : list Z) : list Z :=
  match l with
  | [] => [k]
  | x :: rest => if k <? x then k :: l else x :: insert_id k rest
  end.

Definition sort_ids (l : list Z) : list Z :=
  fold_left (fun sorted k => insert_id k sorted) l [].

(** The entry of [final_objects] for track [k] (the default class is never
    used for a track that has a detection, see [majority_vote_total]). *)
Definition object_of (ds : list detection) (k : Z) : object :=
  let g := group_of k ds in
  Object k (default 0 (majority_vote (votes g)))
         (Py.sum (confs g) / inject_Z (Z.of_nat (length (confs g))))%Q.

(** Two entries of [final_objects] agree: same track, same class, equal
    confidence. *)
Definition same_object (o1 o2 : object) : Prop :=
  o_id o1 = o_id o2 /\ o_cls o1 = o_cls o2 /\ (o_conf o1 == o_conf o2)%Q.

(** The class ids for which [Py.set] is the iteration order of CPython. *)
Definition small_class (c : Z) : Prop := 0 <= c < 8.

(** A class is tied for the lead of a vote: no class has more votes. *)
Definition leads (vs : list Z) (c : Z) : Prop :=
  In c vs /\ forall c', (Py.count vs c' <= Py.count vs c)%nat.

(** The confidences held by the [objects] dict: their sum and number. *)
Fixpoint groups_sum (objs : list (Z * group)) : Q :=
  match objs with
  | [] => 0
  | (_, g) :: rest => Py.sum (confs g) + groups_sum rest
  end.

Fixpoint groups_count (objs : list (Z * group)) : nat :=
  match objs with
  | [] => 0
  | (_, g) :: rest => length (confs g) + groups_count rest
  end.

(** ** The behaviour the specification asks for, where the claims compare
       it with the code *)

(** Section 4.2 of the specification: the mean of the per-object
    confidences, each object counting once; 0 without objects. *)
Definition spec_avg_confidence (objs : list object) : Q :=
  match objs with
  | [] => 0
  | _ :: _ => Py.sum (map o_conf objs) / inject_Z (Z.of_nat (length objs))
  end.

(** Section 4.1 of the specification: among the classes that lead the vote,
    the class of the most recent detection when it is one of them, otherwise
    the lowest-valued class id. *)
Definition spec_tie_break (vs : list Z) (c : Z) : Prop :=
  leads vs c
  /\ (leads vs (last vs 0) -> c = last vs 0)
  /\ (~ leads vs (last vs 0) -> forall c', leads vs c' -> c <= c').

(** ** Concrete scenarios *)

(** No state file yet, nothing done yet. *)
Definition fresh_world : world := World Absent [].

(** A state file left by a cycle that saw [n] empty pots. *)
Definition world_after (n : Z) : world :=
  World (Json {[ "last_num_empty"%string := n ]}) [].

(** Four tracks, each seen once as empty with confidence 0.9. *)
Definition four_empty_pots : list detection :=
  [Detection 1 0 (9#10); Detection 2 0 (9#10);
   Detection 3 0 (9#10); Detection 4 0 (9#10)].

(** At 10 o'clock, with everything available, one frame is read. *)
Definition env_one_frame (boxes : list detection) : env :=
  Env 10 true true true [Tracked 0%nat boxes].

(** At 10 o'clock the model file is there but [YOLO] raises on it. *)
Definition env_model_broken : env := Env 10 true false true [].

(** Track 1 seen three times with confidence 0.5, track 2 once with 1. *)
Definition uneven_tracks : list detection :=
  [Detection 1 0 (1#2); Detection 1 0 (1#2); Detection 1 0 (1#2);
   Detection 2 0 1].

(** One track seen as empty, then as filled. *)
Definition tied_track : list detection :=
  [Detection 1 0 (9#10); Detection 1 1 (9#10)].

(** ** Vocabulary for the statements about the rest of the cycle *)

(** The records posted to the telemetry sink, in order. *)
Fixpoint telemetry_posts (tr : list effect) : list telemetry :=
  match tr with
  | [] => []
  | ThingsboardPost t :: rest => t :: telemetry_posts rest
  | _ :: rest => telemetry_posts rest
  end.

(** The images written to the snapshot file, in order. *)
Fixpoint snapshot_writes (tr : list effect) : list image :=
  match tr with
  | [] => []
  | ImWrite img :: rest => img :: snapshot_writes rest
  | _ :: rest => snapshot_writes rest
  end.

(** Frames that are read and processed to the end. *)
Definition tracked (good : list (image * list detection)) : list frame :=
  map (fun p => Tracked (fst p) (snd p)) good.

(** What ends the capture loop without adding anything: the end of the
    stream, a failed read or an exception in the tracker. *)
Definition stops_capture (rest : list frame) : Prop :=
  match rest with
  | [] | ReadFailed :: _ | TrackFailed :: _ => True
  | _ => False
  end.

(** The same environment with another stream. *)
Definition with_stream (e : env) (frames : list frame) : env :=
  Env (hour e) (model_exists e) (model_loads e) (stream_opens e) frames.

(** The confidence of a detection lies between two bounds. *)
Definition conf_between (lo hi : Q) (d : detection) : Prop :=
  (lo <= d_conf d)%Q /\ (d_conf d <= hi)%Q.

(** The votes of track [k]. *)
Definition votes_of (k : Z) (ds : list detection) : list Z :=
  map d_cls (dets_of k ds).

(** At 10 o'clock, with everything available, these frames are read. *)
Definition env_frames (frames : list frame) : env :=
  Env 10 true true true frames.

(** Two processed frames, then a frame on which the tracker raises. *)
Definition two_frames_then_fault : list frame :=
  tracked [(0%nat, four_empty_pots); (1%nat, tied_track)]
  ++ [TrackFailed; Tracked 2%nat uneven_tracks].

(** Track 5 seen twice as filled and once as empty, track 6 once as
    empty. *)
Definition mixed_tracks : list detection :=
  [Detection 5 1 (9#10); Detection 6 0 (8#10);
   Detection 5 0 (6#10); Detection 5 1 (7#10)].

(** ** The aggregation in double precision (lines 159-180, 188)

    The loops of the aggregation once more, with the confidences as the
    binary64 numbers that Python floats are, every addition and division
    rounded as the machine rounds it.  A decimal literal stands for the
    nearest double, as it does in Python. *)

#[local] Set Warnings "-inexact-float".

















(** At 10 o'clock, with everything available, the first frame raises after
    its boxes were taken. *)
Definition env_first_frame_faults : env :=
  Env 10 true true true [ExtractFailed 0%nat four_empty_pots].

(** Brings a trace built by successive [emit]s to the form [trace w ++ l]. *)
Ltac flatten_trace :=
  unfold send_discord, send_thingsboard, save_state, emit; simpl;
  repeat rewrite <- app_assoc; simpl.

(** * Properties *)

(** ** The model on concrete inputs *)

(** Votes are grouped by track, the objects come out sorted by id. *)
Example analyse_two_tracks :
  (fun m => (map o_id (sorted_objects m), map o_cls (sorted_objects m),
             total_potes m, num_empty m, empty_ids m))
    <$> analyse [Detection 7 1 (9#10); Detection 3 0 (8#10);
                 Detection 7 1 (7#10); Detection 3 0 (6#10);
                 Detection 3 1 (1#2)]
  = Some ([3; 7], [0; 1], 2%nat, 1, [3]).
Proof. reflexivity. Qed.

(** Six tracks, four empty at 0.9, 0.8, 0.95, 0.85 and two filled at 0.6,
    0.7: six objects, four empty, 66.7 percent, health 0.8; with a stored
    count of 4 nothing is emitted and the embed is yellow. *)
Example six_tracks_four_empty :
  match analyse [Detection 1 0 (9#10); Detection 2 0 (8#10);
                 Detection 3 0 (95#100); Detection 4 0 (85#100);
                 Detection 5 1 (6#10); Detection 6 1 (7#10)] with
  | Some m =>
      total_potes m = 6%nat /\ num_empty m = 4
      /\ (pct_empty m == 200#3)%Q /\ (avg_confidence m == 8#10)%Q
      /\ alert_logic (num_empty m) 4 (avg_confidence m)
         = Decision YELLOW [] false
  | None => False
  end.
Proof. vm_compute. repeat split. Qed.

(** A full cycle on a fresh installation. *)
Example first_cycle_trace :
  map (fun e => match e with
                | DiscordPost (AlertLines l) _ img => Some (l, img)
                | _ => None
                end)
      (trace (run_inference_cycle (env_one_frame four_empty_pots)
                                  fresh_world))
  = [None; None; None; None; None;
     Some ([YellowWarning], Some 0%nat); None;
     Some ([YellowWarning], Some 0%nat); None; None].
Proof. reflexivity. Qed.


(** ** The alert rules *)

Lemma conf_below_iff (avg bound : Q) :
  conf_below avg bound = true <-> (avg < bound)%Q.
Proof.
  unfold conf_below. rewrite negb_true_iff.
  split.
  - intros H. apply Qnot_le_lt. rewrite <- Qle_bool_iff. congruence.
  - intros H. destruct (Qle_bool bound avg) eqn:E; [|reflexivity].
    apply Qle_bool_iff in E. exfalso. exact (Qlt_not_le _ _ H E).
Qed.

(** The three branches of the chain, as equations. *)
Lemma threshold_rules_yellow (last : Z) :
  threshold_rules 4 last =
  if last =? 4 then Decision YELLOW [] false
  else Decision YELLOW [YellowWarning] true.
Proof.
  unfold threshold_rules.
  change (4 =? 4) with true. cbv iota. rewrite (Z.eqb_sym 4 last).
  now destruct (last =? 4).
Qed.

Lemma threshold_rules_red (n last : Z) :
  5 <= n ->
  threshold_rules n last =
  if n =? last then Decision RED [] false
  else Decision RED [RedAlert n] true.
Proof.
  intros Hn. unfold threshold_rules.
  destruct (Z.eqb_spec n 4); [lia|].
  destruct (Z.geb_spec n 5); [|lia].
  now destruct (n =? last).
Qed.

Lemma threshold_rules_green (n last : Z) :
  n < 4 ->
  threshold_rules n last =
  if last >=? 4 then Decision GREEN [Recovery] true
  else Decision GREEN [] false.
Proof.
  intros Hn. unfold threshold_rules.
  destruct (Z.eqb_spec n 4); [lia|].
  destruct (Z.geb_spec n 5); [lia|]. reflexivity.
Qed.

(** [should_alert] is set exactly when something was appended. *)
Lemma threshold_rules_should_alert (n last : Z) :
  should_alert (threshold_rules n last) = true <->
  alerts (threshold_rules n last) <> [].
Proof.
  unfold threshold_rules.
  repeat match goal with |- context [if ?b then _ else _] => destruct b end;
    simpl; split; congruence.
Qed.

Lemma alert_logic_should_alert (n last : Z) (avg : Q) :
  should_alert (alert_logic n last avg) = true <->
  alerts (alert_logic n last avg) <> [].
Proof.
  unfold alert_logic, health_check.
  destruct (conf_below avg (3#4)); simpl.
  - split; [intros _ | reflexivity].
    destruct (alerts (threshold_rules n last)); discriminate.
  - apply threshold_rules_should_alert.
Qed.

(** The alerts of a cycle are those of the chain, then the health line. *)
Lemma alert_logic_alerts (n last : Z) (avg : Q) :
  alerts (alert_logic n last avg) =
  alerts (threshold_rules n last)
  ++ (if conf_below avg (3#4) then [HealthWarning avg] else []).
Proof.
  unfold alert_logic, health_check.
  destruct (conf_below avg (3#4)); simpl; [reflexivity|].
  now rewrite app_nil_r.
Qed.

Lemma in_threshold_alerts (a : alert) (n last : Z) :
  In a (alerts (threshold_rules n last)) <->
  (a = YellowWarning /\ n = 4 /\ n <> last)
  \/ (a = RedAlert n /\ 5 <= n /\ n <> last)
  \/ (a = Recovery /\ n < 4 /\ 4 <= last).
Proof.
  unfold threshold_rules.
  destruct (Z.eqb_spec n 4) as [E4|N4];
    [| destruct (Z.geb_spec n 5) as [G5|L5] ].
  - destruct (Z.eqb_spec n last); simpl; split;
      intuition (try congruence; try lia).
  - destruct (Z.eqb_spec n last); simpl; split;
      intuition (try congruence; try lia).
  - destruct (Z.geb_spec last 4); simpl; split;
      intuition (try congruence; try lia).
Qed.

Lemma in_alert_logic (a : alert) (n last : Z) (avg : Q) :
  In a (alerts (alert_logic n last avg)) <->
  In a (alerts (threshold_rules n last))
  \/ (a = HealthWarning avg /\ (avg < 3#4)%Q).
Proof.
  rewrite alert_logic_alerts, in_app_iff.
  destruct (conf_below avg (3#4)) eqn:E; simpl.
  - apply conf_below_iff in E. intuition.
  - split; [intuition|]. intros [H|[_ H]]; [now left|].
    apply conf_below_iff in H. congruence.
Qed.

(** ** The effects of a cycle *)

Lemma new_effects_app (w : world) (f : file) (l : list effect) :
  new_effects w (World f (trace w ++ l)) = l.
Proof.
  unfold new_effects. simpl.
  rewrite skipn_app, skipn_all, Nat.sub_diag. reflexivity.
Qed.

(** The capture loop only logs: what it collects does not depend on the
    world, and the state file is not touched. *)
Lemma capture_loop_world (frames : list frame) (c : capture) (w : world) :
  exists logs,
    capture_loop frames c w
    = (fst (capture_loop frames c (World Absent [])),
       World (state_file w) (trace w ++ logs))
    /\ Forall (fun e => e = Log InferenceLoopError) logs.
Proof.
  revert c. induction frames as [|fr rest IH]; intros c; simpl.
  - exists []. destruct (frames_processed c <? FRAMES_TO_PROCESS)%nat;
      simpl; rewrite app_nil_r; destruct w; auto.
  - destruct (frames_processed c <? FRAMES_TO_PROCESS)%nat.
    + destruct fr as [| |img boxes|img boxes].
      * exists []. simpl. rewrite app_nil_r. destruct w; auto.
      * exists [Log InferenceLoopError]. simpl. auto.
      * exists [Log InferenceLoopError]. simpl. auto.
      * apply IH.
    + exists []. simpl. rewrite app_nil_r. destruct w; auto.
Qed.

Lemma report_eq (m : metrics) (last_frame : option image) (w : world) :
  report m last_frame w
  = World (Json (next_state m w))
      (trace w
       ++ [Log Result; ThingsboardPost (cycle_telemetry m);
           Log ThingsboardOutcome]
       ++ dispatch_effects (cycle_decision m w) (cycle_embed m w) last_frame
       ++ [StateWrite (next_state m w)]).
Proof.
  unfold report, dispatch_effects, cycle_embed, cycle_decision, next_state,
    cycle_telemetry.
  cbv zeta. simpl (state_file _).
  destruct (should_alert (alert_logic _ _ _)); [destruct last_frame|];
    flatten_trace; reflexivity.
Qed.

(** The early returns. *)
Lemma run_aborts (e : env) (w : world) :
  reaches_report e = false ->
  exists l,
    run_inference_cycle e w = World (state_file w) (trace w ++ l)
    /\ state_writes l = []
    /\ posted_alerts l = []
    /\ (forall t, ~ In (ThingsboardPost t) l).
Proof.
  unfold reaches_report, in_hours, run_inference_cycle, captured.
  destruct ((hour e <? 6) || (hour e >=? 21)); simpl.
  { intros _. exists [Log OutsideHours]. flatten_trace.
    repeat split; auto. intros t [H|[]]; discriminate. }
  destruct (model_exists e); simpl.
  2:{ intros _.
      exists [Log Starting; Log ModelNotFound;
              DiscordPost ModelNotFoundMsg None None; Log DiscordOutcome].
      flatten_trace. repeat split; auto.
      intros t H; simpl in H; intuition discriminate. }
  destruct (model_loads e); simpl.
  2:{ intros _. exists [Log Starting; Log ModelLoadError].
      flatten_trace. repeat split; auto.
      intros t H; simpl in H; intuition discriminate. }
  destruct (stream_opens e); simpl.
  2:{ intros _.
      exists [Log Starting; Log RtspError;
              DiscordPost RtspMsg None None; Log DiscordOutcome].
      flatten_trace. repeat split; auto.
      intros t H; simpl in H; intuition discriminate. }
  intros H. apply negb_false_iff in H.
  destruct (capture_loop_world (stream e) (Capture [] None 0)
              (emit (Log Starting) w)) as (logs & -> & Hlogs).
  rewrite H.
  exists ([Log Starting] ++ logs ++ [Log NoFrames]).
  flatten_trace. split; [reflexivity|].
  assert (Hl : forall l', state_writes (logs ++ l') = state_writes l'
                       /\ posted_alerts (logs ++ l') = posted_alerts l'
                       /\ forall t, In (ThingsboardPost t) (logs ++ l')
                                    -> In (ThingsboardPost t) l').
  { intros l'. induction Hlogs as [|x logs -> _ IH]; simpl; [auto|].
    destruct IH as (? & ? & IH). repeat split; auto.
    intros t [Ht|Ht]; [discriminate|auto]. }
  destruct (Hl [Log NoFrames]) as (-> & -> & Ht).
  repeat split; auto.
  intros t [Hx|Hx]; [discriminate|].
  apply Ht in Hx. simpl in Hx. intuition discriminate.
Qed.

(** ** Grouping by track id *)

Lemma keys_add_in (k x : Z) (ks : list Z) :
  In x (keys_add k ks) <-> x = k \/ In x ks.
Proof.
  induction ks as [|y ks IH]; simpl.
  - intuition.
  - destruct (Z.eqb_spec y k); simpl; [|rewrite IH]; intuition congruence.
Qed.

Lemma keys_add_NoDup (k : Z) (ks : list Z) :
  NoDup ks -> NoDup (keys_add k ks).
Proof.
  induction 1 as [|y ks Hy Hks IH]; simpl.
  - constructor; [intros []|constructor].
  - destruct (Z.eqb_spec y k); [now constructor|].
    constructor; [|exact IH].
    rewrite keys_add_in. intuition congruence.
Qed.

Lemma track_ids_snoc (ds : list detection) (d : detection) :
  track_ids (ds ++ [d]) = keys_add (d_id d) (track_ids ds).
Proof. unfold track_ids. now rewrite fold_left_app. Qed.

Lemma group_by_id_snoc (ds : list detection) (d : detection) :
  group_by_id (ds ++ [d])
  = objects_add (d_id d) (d_cls d) (d_conf d) (group_by_id ds).
Proof. unfold group_by_id. now rewrite fold_left_app. Qed.

Lemma track_ids_in (k : Z) (ds : list detection) :
  In k (track_ids ds) <-> In k (map d_id ds).
Proof.
  induction ds as [|d ds IH] using rev_ind; [reflexivity|].
  rewrite track_ids_snoc, keys_add_in, map_app, in_app_iff, IH.
  simpl. intuition.
Qed.

Lemma track_ids_NoDup (ds : list detection) : NoDup (track_ids ds).
Proof.
  induction ds as [|d ds IH] using rev_ind; [constructor|].
  rewrite track_ids_snoc. now apply keys_add_NoDup.
Qed.

Lemma dets_of_snoc (k : Z) (ds : list detection) (d : detection) :
  dets_of k (ds ++ [d])
  = dets_of k ds ++ (if d_id d =? k then [d] else []).
Proof. unfold dets_of. now rewrite List.filter_app. Qed.

Lemma dets_of_nil_iff (k : Z) (ds : list detection) :
  dets_of k ds = [] <-> ~ In k (map d_id ds).
Proof.
  induction ds as [|d ds IH]; simpl; [intuition|].
  destruct (Z.eqb_spec (d_id d) k); [|rewrite IH]; intuition congruence.
Qed.

Lemma group_of_snoc_other (k : Z) (ds : list detection) (d : detection) :
  d_id d <> k -> group_of k (ds ++ [d]) = group_of k ds.
Proof.
  intros H. unfold group_of. rewrite dets_of_snoc.
  destruct (Z.eqb_spec (d_id d) k); [contradiction|]. now rewrite app_nil_r.
Qed.

Lemma group_of_snoc_same (ds : list detection) (d : detection) :
  group_of (d_id d) (ds ++ [d])
  = Group (votes (group_of (d_id d) ds) ++ [d_cls d])
          (confs (group_of (d_id d) ds) ++ [d_conf d]).
Proof.
  unfold group_of. rewrite dets_of_snoc, Z.eqb_refl, !map_app. reflexivity.
Qed.

Lemma objects_add_keys (ds : list detection) (d : detection) (ks : list Z) :
  NoDup ks ->
  In (d_id d) ks \/ dets_of (d_id d) ds = [] ->
  objects_add (d_id d) (d_cls d) (d_conf d)
              (map (fun k => (k, group_of k ds)) ks)
  = map (fun k => (k, group_of k (ds ++ [d]))) (keys_add (d_id d) ks).
Proof.
  induction 1 as [|x ks Hx Hks IH]; intros Hin; simpl.
  - destruct Hin as [[]|Hnil].
    unfold group_of. rewrite dets_of_snoc, Hnil, Z.eqb_refl. reflexivity.
  - destruct (Z.eqb_spec x (d_id d)) as [->|Hne]; simpl.
    + rewrite group_of_snoc_same. f_equal.
      apply map_ext_in. intros k Hk.
      rewrite group_of_snoc_other; [reflexivity|].
      intros E. rewrite E in Hx. contradiction.
    + rewrite group_of_snoc_other by congruence. f_equal.
      apply IH. destruct Hin as [[?|?]|?]; [congruence|now left|now right].
Qed.

(** The [objects] dict after the grouping loop: one key per track, in
    order of first appearance, holding the votes and confidences of that
    track in arrival order. *)
Lemma group_by_id_eq (ds : list detection) :
  group_by_id ds = map (fun k => (k, group_of k ds)) (track_ids ds).
Proof.
  induction ds as [|d ds IH] using rev_ind; [reflexivity|].
  rewrite group_by_id_snoc, IH, track_ids_snoc.
  apply objects_add_keys; [apply track_ids_NoDup|].
  rewrite track_ids_in, dets_of_nil_iff.
  destruct (in_dec Z.eq_dec (d_id d) (map d_id ds)); auto.
Qed.

(** ** The majority vote *)

Lemma set_add_in (c x : Z) (s : list Z) :
  In x (Py.set_add c s) <-> x = c \/ In x s.
Proof.
  induction s as [|y s IH]; simpl.
  - intuition.
  - destruct (Z.ltb_spec c y); simpl; [intuition|].
    destruct (Z.eqb_spec c y); simpl; [|rewrite IH]; intuition congruence.
Qed.

Lemma set_add_sorted (c : Z) (s : list Z) :
  StronglySorted Z.lt s -> StronglySorted Z.lt (Py.set_add c s).
Proof.
  induction 1 as [|y s Hs IH Hy]; simpl.
  - repeat constructor.
  - destruct (Z.ltb_spec c y).
    + constructor; [now constructor|].
      constructor; [assumption|].
      eapply Forall_impl; [|exact Hy]. simpl. intros. lia.
    + destruct (Z.eqb_spec c y); [now constructor|].
      constructor; [exact IH|].
      apply Forall_forall. intros x Hx. apply set_add_in in Hx.
      destruct Hx as [->|Hx]; [lia|].
      rewrite Forall_forall in Hy. now apply Hy.
Qed.

Lemma set_snoc (vs : list Z) (c : Z) :
  Py.set (vs ++ [c]) = Py.set_add c (Py.set vs).
Proof. unfold Py.set. now rewrite fold_left_app. Qed.

Lemma set_in (x : Z) (vs : list Z) : In x (Py.set vs) <-> In x vs.
Proof.
  induction vs as [|c vs IH] using rev_ind; [reflexivity|].
  rewrite set_snoc, set_add_in, in_app_iff, IH. simpl. intuition.
Qed.

(** The iteration order of the set of votes is strictly ascending. *)
Lemma set_sorted (vs : list Z) : StronglySorted Z.lt (Py.set vs).
Proof.
  induction vs as [|c vs IH] using rev_ind; [constructor|].
  rewrite set_snoc. now apply set_add_sorted.
Qed.

(** On an ascending iterable, [max] returns the least of the elements with
    the greatest key. *)
Lemma max_from_sorted {key : Z -> nat} (rest : list Z) :
  forall b, StronglySorted Z.lt (b :: rest) ->
  let m := Py.max_from key b rest in
  In m (b :: rest)
  /\ (forall x, In x (b :: rest) -> (key x <= key m)%nat)
  /\ (forall x, In x (b :: rest) -> key x = key m -> m <= x).
Proof.
  induction rest as [|x rest IH]; intros b Hs; simpl.
  - repeat split.
    + now left.
    + intros x [->|[]]. lia.
    + intros x [->|[]] _. lia.
  - apply StronglySorted_inv in Hs. destruct Hs as [Hs Hb].
    pose proof Hs as Hs'. apply StronglySorted_inv in Hs'.
    destruct Hs' as [Hrest Hx].
    inversion Hb as [|? ? Hbx Hbrest]; subst.
    destruct (Nat.ltb_spec (key b) (key x)) as [Hlt|Hge].
    + destruct (IH x Hs) as (Hin & Hmax & Hmin).
      repeat split.
      * now right.
      * intros y [->|Hy]; [|now apply Hmax].
        specialize (Hmax x (or_introl eq_refl)). lia.
      * intros y [->|Hy] Hk; [|now apply Hmin].
        specialize (Hmax x (or_introl eq_refl)). lia.
    + assert (Hs2 : StronglySorted Z.lt (b :: rest))
        by (constructor; assumption).
      destruct (IH b Hs2) as (Hin & Hmax & Hmin).
      repeat split.
      * destruct Hin as [Hin|Hin]; [now left|now right; right].
      * intros y [->|[->|Hy]].
        -- apply Hmax. now left.
        -- specialize (Hmax b (or_introl eq_refl)). lia.
        -- apply Hmax. now right.
      * intros y [->|[->|Hy]] Hk.
        -- apply Hmin; [now left|assumption].
        -- specialize (Hmax b (or_introl eq_refl)).
           assert (Py.max_from key b rest <= b)
             by (apply Hmin; [now left|lia]).
           lia.
        -- apply Hmin; [now right|assumption].
Qed.

Lemma count_not_in (vs : list Z) (c : Z) : ~ In c vs -> Py.count vs c = 0%nat.
Proof. intros H. unfold Py.count. now apply count_occ_not_In. Qed.

(** The class [max] picks leads the vote and is the least class that
    does. *)
Lemma majority_vote_spec (vs : list Z) (c : Z) :
  majority_vote vs = Some c ->
  leads vs c /\ forall c', leads vs c' -> c <= c'.
Proof.
  unfold majority_vote, Py.max, leads.
  pose proof (set_sorted vs) as Hs.
  destruct (Py.set vs) as [|b rest] eqn:E; [discriminate|].
  intros [= <-].
  destruct (max_from_sorted (key := Py.count vs) rest b Hs)
    as (Hin & Hmax & Hmin).
  assert (Hset : forall x, In x (b :: rest) <-> In x vs)
    by (intros x; rewrite <- E; apply set_in).
  repeat split.
  - now apply Hset.
  - intros c'. destruct (in_dec Z.eq_dec c' vs) as [Hc|Hc].
    + apply Hmax. now apply Hset.
    + rewrite (count_not_in vs c' Hc). lia.
  - intros c' [Hc Hlead]. apply Hmin; [now apply Hset|].
    specialize (Hlead (Py.max_from (Py.count vs) b rest)).
    specialize (Hmax c' (proj2 (Hset c') Hc)). lia.
Qed.

(** [max] does not raise on the votes of a track that was seen. *)
Lemma majority_vote_total (vs : list Z) :
  vs <> [] -> exists c, majority_vote vs = Some c.
Proof.
  intros H. unfold majority_vote, Py.max.
  destruct (Py.set vs) as [|b rest] eqn:E; [|eauto].
  destruct vs as [|v vs]; [contradiction|].
  assert (Hin : In v (Py.set (v :: vs))) by (apply set_in; now left).
  rewrite E in Hin. destruct Hin.
Qed.

(** The vote only depends on how often each class occurs. *)
Lemma majority_vote_perm (vs1 vs2 : list Z) :
  Permutation vs1 vs2 -> majority_vote vs1 = majority_vote vs2.
Proof.
  intros HP.
  assert (Hcount : forall c, Py.count vs1 c = Py.count vs2 c).
  { intros c. unfold Py.count. revert c.
    now apply (Permutation_count_occ Z.eq_dec). }
  assert (Hlead : forall c, leads vs1 c <-> leads vs2 c).
  { intros c. unfold leads. split; intros [Hin Hc]; split.
    - eapply Permutation_in; eassumption.
    - intros c'. rewrite <- !Hcount. apply Hc.
    - eapply Permutation_in; [symmetry|]; eassumption.
    - intros c'. rewrite !Hcount. apply Hc. }
  destruct (majority_vote vs1) as [c1|] eqn:E1,
           (majority_vote vs2) as [c2|] eqn:E2.
  - apply majority_vote_spec in E1, E2.
    destruct E1 as [L1 M1], E2 as [L2 M2].
    f_equal. apply Z.le_antisymm.
    + apply M1, Hlead, L2.
    + apply M2, Hlead, L1.
  - destruct vs2 as [|v vs2].
    + symmetry in HP. apply Permutation_nil in HP. subst. discriminate.
    + destruct (majority_vote_total (v :: vs2)) as [c Hc]; congruence.
  - destruct vs1 as [|v vs1].
    + apply Permutation_nil in HP. subst. discriminate.
    + destruct (majority_vote_total (v :: vs1)) as [c Hc]; congruence.
  - reflexivity.
Qed.

(** ** The tally of the aggregated objects *)

Lemma sum_snoc (xs : list Q) (p : Q) : Py.sum (xs ++ [p]) = (Py.sum xs + p)%Q.
Proof. unfold Py.sum. now rewrite fold_left_app. Qed.

Lemma groups_sum_add (oid c : Z) (p : Q) (objs : list (Z * group)) :
  (groups_sum (objects_add oid c p objs) == groups_sum objs + p)%Q.
Proof.
  induction objs as [|[k g] objs IH]; simpl.
  - unfold Py.sum. simpl. ring.
  - destruct (k =? oid); simpl.
    + rewrite sum_snoc. ring.
    + rewrite IH. ring.
Qed.

Lemma groups_count_add (oid c : Z) (p : Q) (objs : list (Z * group)) :
  groups_count (objects_add oid c p objs) = S (groups_count objs).
Proof.
  induction objs as [|[k g] objs IH]; simpl; [reflexivity|].
  destruct (k =? oid); simpl.
  - rewrite length_app. simpl. lia.
  - rewrite IH. lia.
Qed.

(** Grouping loses no confidence and no detection. *)
Lemma groups_sum_group_by_id (ds : list detection) :
  (groups_sum (group_by_id ds) == Py.sum (map d_conf ds))%Q.
Proof.
  induction ds as [|d ds IH] using rev_ind; [reflexivity|].
  rewrite group_by_id_snoc, groups_sum_add, map_app, IH. simpl.
  now rewrite sum_snoc.
Qed.

Lemma groups_count_group_by_id (ds : list detection) :
  groups_count (group_by_id ds) = length ds.
Proof.
  induction ds as [|d ds IH] using rev_ind; [reflexivity|].
  rewrite group_by_id_snoc, groups_count_add, length_app, IH. simpl. lia.
Qed.

(** The running totals of the loop of lines 172-180. *)
Lemma tally_loop_totals (objs : list (Z * group)) :
  forall t t', tally_loop t objs = Some t' ->
  (total_conf t' == total_conf t + groups_sum objs)%Q
  /\ count_conf t' = (count_conf t + groups_count objs)%nat.
Proof.
  induction objs as [|[k g] objs IH]; intros t t'; simpl.
  - intros [= <-]. split; [ring|lia].
  - destruct (majority_vote (votes g)) as [c|]; [|discriminate]. simpl.
    destruct (Py.div _ _) as [a|]; [|discriminate]. simpl.
    intros H. apply IH in H. simpl in H. destruct H as [H1 H2].
    split; [rewrite H1; ring|lia].
Qed.

Lemma tally_step_group (ds : list detection) (t : tally) (k : Z) :
  dets_of k ds <> [] ->
  tally_step t (k, group_of k ds)
  = Some (Tally (final_objects t ++ [object_of ds k])
                (total_conf t + Py.sum (confs (group_of k ds)))%Q
                (count_conf t + length (confs (group_of k ds)))%nat).
Proof.
  intros H. unfold tally_step, object_of.
  destruct (majority_vote_total (votes (group_of k ds))) as [c Hc].
  { simpl. destruct (dets_of k ds); [contradiction|discriminate]. }
  rewrite Hc. simpl.
  destruct (dets_of k ds) as [|d l]; [contradiction|]. reflexivity.
Qed.

(** The loop does not raise, and appends one object per key. *)
Lemma tally_loop_keys (ds : list detection) (ks : list Z) :
  (forall k, In k ks -> dets_of k ds <> []) ->
  forall t, exists t',
    tally_loop t (map (fun k => (k, group_of k ds)) ks) = Some t'
    /\ final_objects t' = final_objects t ++ map (object_of ds) ks.
Proof.
  induction ks as [|k ks IH]; intros Hks t; cbn [tally_loop map].
  - exists t. now rewrite app_nil_r.
  - rewrite tally_step_group by (apply Hks; now left). cbn [mbind option_bind].
    destruct (IH (fun x Hx => Hks x (or_intror Hx))
                 (Tally (final_objects t ++ [object_of ds k])
                    (total_conf t + Py.sum (confs (group_of k ds)))%Q
                    (count_conf t + length (confs (group_of k ds)))%nat))
      as (t' & Ht' & Hf).
    exists t'. split; [exact Ht'|].
    rewrite Hf. simpl. now rewrite <- app_assoc.
Qed.

(** The state after the loop: the aggregated objects in order of first
    appearance, the sum of all confidences and the number of detections. *)
Lemma tally_objects_spec (ds : list detection) :
  exists t,
    tally_objects (group_by_id ds) = Some t
    /\ final_objects t = map (object_of ds) (track_ids ds)
    /\ (total_conf t == Py.sum (map d_conf ds))%Q
    /\ count_conf t = length ds.
Proof.
  unfold tally_objects.
  destruct (tally_loop_keys ds (track_ids ds)) with (t := Tally [] 0 0)
    as (t & Ht & Hf).
  { intros k Hk. rewrite dets_of_nil_iff, <- track_ids_in. tauto. }
  rewrite <- group_by_id_eq in Ht.
  exists t. split; [exact Ht|]. split; [exact Hf|].
  destruct (tally_loop_totals _ _ _ Ht) as [H1 H2]. simpl in H1, H2.
  split.
  - rewrite H1, groups_sum_group_by_id. ring.
  - now rewrite H2, groups_count_group_by_id.
Qed.

(** ** Sorting the aggregated objects by id *)

Lemma insert_by_id_map (ds : list detection) (k : Z) (l : list Z) :
  insert_by_id (object_of ds k) (map (object_of ds) l)
  = map (object_of ds) (insert_id k l).
Proof.
  induction l as [|x l IH]; simpl; [reflexivity|].
  destruct (k <? x); simpl; [reflexivity|]. now rewrite IH.
Qed.

Lemma sort_by_id_map (ds : list detection) (ks : list Z) :
  sort_by_id (map (object_of ds) ks) = map (object_of ds) (sort_ids ks).
Proof.
  unfold sort_by_id, sort_ids.
  change (@nil object) with (map (object_of ds) []).
  generalize (@nil Z) as acc.
  induction ks as [|k ks IH]; intros acc; simpl; [reflexivity|].
  now rewrite insert_by_id_map, IH.
Qed.

Lemma sort_ids_snoc (l : list Z) (k : Z) :
  sort_ids (l ++ [k]) = insert_id k (sort_ids l).
Proof. unfold sort_ids. now rewrite fold_left_app. Qed.

Lemma insert_id_in (k x : Z) (l : list Z) :
  In x (insert_id k l) <-> x = k \/ In x l.
Proof.
  induction l as [|y l IH]; simpl; [intuition|].
  destruct (k <? y); simpl; [|rewrite IH]; intuition.
Qed.

Lemma sort_ids_in (x : Z) (l : list Z) : In x (sort_ids l) <-> In x l.
Proof.
  induction l as [|k l IH] using rev_ind; [reflexivity|].
  rewrite sort_ids_snoc, insert_id_in, in_app_iff, IH. simpl. intuition.
Qed.

Lemma insert_id_length (k : Z) (l : list Z) :
  length (insert_id k l) = S (length l).
Proof.
  induction l as [|y l IH]; simpl; [reflexivity|].
  destruct (k <? y); simpl; [reflexivity|]. now rewrite IH.
Qed.

Lemma sort_ids_length (l : list Z) : length (sort_ids l) = length l.
Proof.
  induction l as [|k l IH] using rev_ind; [reflexivity|].
  rewrite sort_ids_snoc, insert_id_length, length_app, IH. simpl. lia.
Qed.

Lemma insert_id_sorted (k : Z) (l : list Z) :
  StronglySorted Z.lt l -> ~ In k l -> StronglySorted Z.lt (insert_id k l).
Proof.
  induction 1 as [|y l Hl IH Hy]; intros Hk; simpl.
  - repeat constructor.
  - destruct (Z.ltb_spec k y).
    + constructor; [now constructor|].
      constructor; [assumption|].
      eapply Forall_impl; [|exact Hy]. simpl. intros. lia.
    + assert (k <> y) by (intros ->; apply Hk; now left).
      constructor.
      * apply IH. intros Hin. apply Hk. now right.
      * apply Forall_forall. intros x Hx. apply insert_id_in in Hx.
        destruct Hx as [->|Hx]; [lia|].
        rewrite Forall_forall in Hy. now apply Hy.
Qed.

Lemma sort_ids_sorted (l : list Z) :
  NoDup l -> StronglySorted Z.lt (sort_ids l).
Proof.
  induction l as [|k l IH] using rev_ind; intros Hnd; [constructor|].
  rewrite sort_ids_snoc.
  apply NoDup_remove in Hnd. rewrite app_nil_r in Hnd.
  destruct Hnd as [Hnd Hk].
  apply insert_id_sorted; [now apply IH|].
  now rewrite sort_ids_in.
Qed.

(** A strictly ascending list is determined by its elements. *)
Lemma sorted_unique (l1 : list Z) :
  forall l2,
  StronglySorted Z.lt l1 -> StronglySorted Z.lt l2 ->
  (forall x, In x l1 <-> In x l2) -> l1 = l2.
Proof.
  induction l1 as [|x l1 IH]; intros [|y l2] H1 H2 Hin.
  - reflexivity.
  - exfalso. apply (Hin y). now left.
  - exfalso. apply (Hin x). now left.
  - apply StronglySorted_inv in H1, H2.
    destruct H1 as [H1 Hx], H2 as [H2 Hy].
    rewrite Forall_forall in Hx, Hy.
    assert (x = y) as ->.
    { destruct (proj1 (Hin x) (or_introl eq_refl)) as [E|Hx2]; [auto|].
      destruct (proj2 (Hin y) (or_introl eq_refl)) as [E|Hy1]; [auto|].
      apply Hy in Hx2. apply Hx in Hy1. lia. }
    f_equal. apply IH; [assumption..|].
    intros z. split; intros Hz.
    + destruct (proj1 (Hin z) (or_intror Hz)) as [E|Hz2]; [|exact Hz2].
      apply Hx in Hz. lia.
    + destruct (proj2 (Hin z) (or_intror Hz)) as [E|Hz1]; [|exact Hz1].
      apply Hy in Hz. lia.
Qed.

(** ** The analysis as a whole *)

(** The analysis never raises; it yields one object per track, in
    ascending order of track id, and the totals of all detections. *)
Lemma analyse_spec (ds : list detection) :
  exists t,
    analyse ds = Some (compute_metrics t)
    /\ sorted_objects (compute_metrics t)
       = map (object_of ds) (sort_ids (track_ids ds))
    /\ (total_conf t == Py.sum (map d_conf ds))%Q
    /\ count_conf t = length ds.
Proof.
  destruct (tally_objects_spec ds) as (t & Ht & Hf & Hsum & Hcount).
  exists t. unfold analyse. rewrite Ht. simpl.
  rewrite Hf, sort_by_id_map. auto.
Qed.

Lemma analyse_total (ds : list detection) : exists m, analyse ds = Some m.
Proof. destruct (analyse_spec ds) as (t & H & _). eauto. Qed.

Lemma track_ids_nil_iff (ds : list detection) : track_ids ds = [] <-> ds = [].
Proof.
  split; [|now intros ->].
  destruct ds as [|d ds]; [reflexivity|]. intros H.
  assert (Hin : In (d_id d) (track_ids (d :: ds)))
    by (apply track_ids_in; now left).
  rewrite H in Hin. destruct Hin.
Qed.

Lemma total_potes_spec (ds : list detection) (m : metrics) :
  analyse ds = Some m -> total_potes m = length (track_ids ds).
Proof.
  destruct (analyse_spec ds) as (t & H & Hs & _). rewrite H. intros [= <-].
  change (total_potes (compute_metrics t))
    with (length (sorted_objects (compute_metrics t))).
  now rewrite Hs, length_map, sort_ids_length.
Qed.

(** ** A cycle that runs to its end *)

Lemma posted_alerts_app (l1 l2 : list effect) :
  posted_alerts (l1 ++ l2) = posted_alerts l1 ++ posted_alerts l2.
Proof.
  induction l1 as [|x l1 IH]; simpl; [reflexivity|].
  destruct x as [| | |[| |lines] ? ?| |]; simpl; auto.
  now rewrite IH, app_assoc.
Qed.

Lemma state_writes_app (l1 l2 : list effect) :
  state_writes (l1 ++ l2) = state_writes l1 ++ state_writes l2.
Proof.
  induction l1 as [|x l1 IH]; simpl; [reflexivity|].
  destruct x; simpl; auto. now rewrite IH.
Qed.

Lemma discord_posts_app (l1 l2 : list effect) :
  discord_posts (l1 ++ l2) = discord_posts l1 ++ discord_posts l2.
Proof. apply List.filter_app. Qed.

Lemma capture_logs_silent (logs : list effect) :
  Forall (fun e => e = Log InferenceLoopError) logs ->
  posted_alerts logs = [] /\ state_writes logs = [] /\ discord_posts logs = [].
Proof. induction 1 as [|x l -> _ IH]; simpl; auto. Qed.

Lemma dispatch_posted_alerts (d : decision) (emb : embed)
    (f : option image) :
  posted_alerts (dispatch_effects d emb f)
  = if should_alert d then alerts d ++ alerts d else [].
Proof.
  unfold dispatch_effects. destruct (should_alert d); [|reflexivity].
  destruct f; simpl; now rewrite app_nil_r.
Qed.

Lemma dispatch_discord_posts (d : decision) (emb : embed)
    (f : option image) :
  discord_posts (dispatch_effects d emb f)
  = if should_alert d
    then [DiscordPost (AlertLines (alerts d)) (Some emb) f;
          DiscordPost (AlertLines (alerts d)) (Some emb) f]
    else [].
Proof.
  unfold dispatch_effects. destruct (should_alert d); [|reflexivity].
  now destruct f.
Qed.

Lemma dispatch_state_writes (d : decision) (emb : embed)
    (f : option image) :
  state_writes (dispatch_effects d emb f) = [].
Proof.
  unfold dispatch_effects. destruct (should_alert d); [|reflexivity].
  now destruct f.
Qed.

Section CompletedCycle.

Variables (e : env) (w : world) (m : metrics).
Hypothesis Hreach : reaches_report e = true.
Hypothesis Hm : analyse (detections (captured e)) = Some m.

(** Past the early returns the cycle is [report] on the captured data. *)
Lemma run_completes :
  exists logs,
    Forall (fun x => x = Log InferenceLoopError) logs
    /\ run_inference_cycle e w
       = report m (last_annotated_frame (captured e))
                (World (state_file w) (trace w ++ Log Starting :: logs)).
Proof.
  pose proof Hreach as H. pose proof Hm as Hm'.
  unfold reaches_report, in_hours, captured in H, Hm'.
  unfold run_inference_cycle, captured.
  rewrite !andb_true_iff, !negb_true_iff in H.
  destruct H as ((((Hh & He) & Hl) & Ho) & Hf).
  rewrite Hh, He, Hl, Ho. simpl.
  destruct (capture_loop_world (stream e) (Capture [] None 0)
              (emit (Log Starting) w)) as (logs & -> & Hlogs).
  rewrite Hf, Hm'. exists logs. split; [exact Hlogs|].
  simpl. now rewrite <- app_assoc.
Qed.

(** The effects of such a cycle, in order. *)
Lemma run_completes_effects :
  exists logs,
    Forall (fun x => x = Log InferenceLoopError) logs
    /\ state_file (run_inference_cycle e w) = Json (next_state m w)
    /\ new_effects w (run_inference_cycle e w)
       = (Log Starting :: logs)
         ++ [Log Result; ThingsboardPost (cycle_telemetry m);
             Log ThingsboardOutcome]
         ++ dispatch_effects (cycle_decision m w) (cycle_embed m w)
                             (last_annotated_frame (captured e))
         ++ [StateWrite (next_state m w)].
Proof.
  destruct run_completes as (logs & Hlogs & ->).
  exists logs. split; [exact Hlogs|].
  rewrite report_eq. cbn [state_file trace].
  split; [reflexivity|].
  rewrite <- app_assoc. apply new_effects_app.
Qed.

(** What such a cycle writes and posts. *)
Lemma run_completes_summary :
  state_file (run_inference_cycle e w) = Json (next_state m w)
  /\ state_writes (new_effects w (run_inference_cycle e w))
     = [next_state m w]
  /\ posted_alerts (new_effects w (run_inference_cycle e w))
     = alerts (cycle_decision m w) ++ alerts (cycle_decision m w)
  /\ discord_posts (new_effects w (run_inference_cycle e w))
     = if should_alert (cycle_decision m w)
       then [DiscordPost (AlertLines (alerts (cycle_decision m w)))
                         (Some (cycle_embed m w))
                         (last_annotated_frame (captured e));
             DiscordPost (AlertLines (alerts (cycle_decision m w)))
                         (Some (cycle_embed m w))
                         (last_annotated_frame (captured e))]
       else [].
Proof.
  destruct run_completes_effects as (logs & Hlogs & Hf & ->).
  destruct (capture_logs_silent logs Hlogs) as (Hp & Hs & Hd).
  split; [exact Hf|].
  change (Log Starting :: logs) with ([Log Starting] ++ logs).
  rewrite !state_writes_app, !posted_alerts_app, !discord_posts_app.
  rewrite Hp, Hs, Hd, dispatch_posted_alerts, dispatch_discord_posts,
    dispatch_state_writes.
  simpl.
  repeat split.
  - destruct (should_alert (cycle_decision m w)) eqn:E;
      [now rewrite app_nil_r|].
    destruct (alerts (cycle_decision m w)) eqn:Ea; [reflexivity|].
    exfalso.
    assert (Hne : alerts (cycle_decision m w) <> [])
      by (rewrite Ea; discriminate).
    apply alert_logic_should_alert in Hne. unfold cycle_decision in E.
    congruence.
  - now rewrite app_nil_r.
Qed.

(** What the webhook receives from such a cycle is what the alert logic
    emitted. *)
Lemma posted_iff_emitted (a : alert) :
  In a (posted_alerts (new_effects w (run_inference_cycle e w)))
  <-> In a (alerts (cycle_decision m w)).
Proof.
  destruct run_completes_summary as (_ & _ & -> & _).
  rewrite in_app_iff. tauto.
Qed.

(** The count such a cycle leaves for the next one. *)
Lemma last_num_empty_after :
  get_last_num_empty (load_state (state_file (run_inference_cycle e w)))
  = num_empty m.
Proof.
  destruct run_completes_summary as (-> & _).
  unfold get_last_num_empty, next_state. simpl.
  now rewrite lookup_insert_eq.
Qed.

End CompletedCycle.

(** * The claims *)

(** ** Dispatch *)

(** C1 (the code departs from the claim).  A cycle that runs to its end
    with a non-empty alert list posts the composed message, with its embed
    and snapshot, to the Discord webhook twice in a row, not once: the
    two consecutive [send_discord] calls of lines 275-276. *)
Theorem alert_message_posted_twice (e : env) (w : world) (m : metrics) :
  reaches_report e = true ->
  analyse (detections (captured e)) = Some m ->
  alerts (cycle_decision m w) <> [] ->
  discord_posts (new_effects w (run_inference_cycle e w))
  = [DiscordPost (AlertLines (alerts (cycle_decision m w)))
                 (Some (cycle_embed m w)) (last_annotated_frame (captured e));
     DiscordPost (AlertLines (alerts (cycle_decision m w)))
                 (Some (cycle_embed m w)) (last_annotated_frame (captured e))].
Proof.
  intros H Hm Hne.
  destruct (run_completes_summary e w m H Hm) as (_ & _ & _ & Hd).
  apply alert_logic_should_alert in Hne.
  unfold cycle_decision in Hd at 1. now rewrite Hne in Hd.
Qed.

Lemma alert_message_posted_twice_witness :
  length (discord_posts
            (new_effects fresh_world
               (run_inference_cycle (env_one_frame four_empty_pots)
                                    fresh_world)))
  = 2%nat.
Proof.
  rewrite (alert_message_posted_twice (env_one_frame four_empty_pots)
             fresh_world _ eq_refl eq_refl).
  - reflexivity.
  - vm_compute. discriminate.
Defined.

(** ** Persistence *)

(** C2, as amended.  The state file is written on exactly the cycles that
    get past every early return (inside the operating hours, model file
    present and loadable, stream opened, at least one frame processed):
    such a cycle writes the loaded state with [last_num_empty] set to the
    number of empty pots, once, whatever the number of aggregated objects
    is; every other cycle writes nothing and leaves the file as it was. *)
Theorem state_written_iff_report_reached (e : env) (w : world) :
  (reaches_report e = true ->
   exists m,
     analyse (detections (captured e)) = Some m
     /\ state_file (run_inference_cycle e w) = Json (next_state m w)
     /\ state_writes (new_effects w (run_inference_cycle e w))
        = [next_state m w]
     /\ get_last_num_empty (next_state m w) = num_empty m)
  /\ (reaches_report e = false ->
      state_file (run_inference_cycle e w) = state_file w
      /\ state_writes (new_effects w (run_inference_cycle e w)) = []).
Proof.
  split; intros H.
  - destruct (analyse_total (detections (captured e))) as [m Hm].
    exists m. split; [exact Hm|].
    destruct (run_completes_summary e w m H Hm) as (Hf & Hs & _).
    repeat split; [exact Hf|exact Hs|].
    unfold get_last_num_empty, next_state. now rewrite lookup_insert_eq.
  - destruct (run_aborts e w H) as (l & -> & Hs & _).
    now rewrite new_effects_app.
Qed.

Lemma state_written_iff_report_reached_witness :
  state_file (run_inference_cycle env_model_broken (world_after 5))
  = state_file (world_after 5)
  /\ state_writes (new_effects fresh_world
                     (run_inference_cycle (env_one_frame four_empty_pots)
                                          fresh_world))
     <> [].
Proof.
  split.
  - apply (proj2 (state_written_iff_report_reached env_model_broken
                    (world_after 5))).
    reflexivity.
  - destruct (proj1 (state_written_iff_report_reached
                       (env_one_frame four_empty_pots) fresh_world)
                    eq_refl) as (m & _ & _ & -> & _).
    discriminate.
Defined.

(** C2, the claim as stated fails: a cycle that processes a frame with no
    detection aggregates zero objects, is not aborted, and overwrites a
    stored count of 5 with 0. *)
Lemma zero_objects_cycle_writes_state :
  (total_potes <$> analyse (detections (captured (env_one_frame []))))
  = Some 0%nat
  /\ get_last_num_empty (load_state (state_file (world_after 5))) = 5
  /\ get_last_num_empty
       (load_state
          (state_file (run_inference_cycle (env_one_frame [])
                                           (world_after 5)))) = 0
  /\ state_file (run_inference_cycle (env_one_frame []) (world_after 5))
     <> state_file (world_after 5).
Proof.
  repeat split; try (vm_compute; reflexivity).
  intros E.
  apply (f_equal (fun f => get_last_num_empty (load_state f))) in E.
  vm_compute in E. discriminate.
Qed.

(** ** Failure to load the model *)

(** C9 (the code departs from the claim).  When the model file exists but
    loading it raises, the cycle only logs and returns: nothing is posted
    to the Discord webhook.  The state file is untouched, and no detection
    is read. *)
Theorem model_load_failure_not_reported (e : env) (w : world) :
  in_hours e = true -> model_exists e = true -> model_loads e = false ->
  run_inference_cycle e w
  = World (state_file w) (trace w ++ [Log Starting; Log ModelLoadError])
  /\ discord_posts (new_effects w (run_inference_cycle e w)) = [].
Proof.
  unfold in_hours, run_inference_cycle. intros Hh He Hl.
  apply negb_true_iff in Hh. rewrite Hh, He, Hl. simpl.
  unfold emit. simpl. rewrite <- app_assoc. simpl.
  split; [reflexivity|]. now rewrite new_effects_app.
Qed.

Lemma model_load_failure_not_reported_witness :
  trace (run_inference_cycle env_model_broken fresh_world)
  = [Log Starting; Log ModelLoadError].
Proof.
  rewrite (proj1 (model_load_failure_not_reported env_model_broken
                    fresh_world eq_refl eq_refl eq_refl)).
  reflexivity.
Defined.

(** The sibling path: a missing model file is reported to the webhook. *)
Lemma model_missing_reported (e : env) (w : world) :
  in_hours e = true -> model_exists e = false ->
  discord_posts (new_effects w (run_inference_cycle e w))
  = [DiscordPost ModelNotFoundMsg None None].
Proof.
  unfold in_hours, run_inference_cycle. intros Hh He.
  apply negb_true_iff in Hh. rewrite Hh, He. simpl.
  flatten_trace. now rewrite new_effects_app.
Qed.

(** ** The alert state machine *)

(** C6.  Threshold events are edge-triggered.  With 4 empty pots the
    yellow warning is emitted exactly when the stored count differs from
    4; with 5 or more the red alert is emitted exactly when the stored
    count differs from the current one; and of two consecutive cycles that
    run to their end with the same count of 4 or more, the second posts no
    threshold event. *)
Theorem threshold_events_edge_triggered :
  (forall last avg,
      In YellowWarning (alerts (alert_logic 4 last avg)) <-> 4 <> last)
  /\ (forall n last avg,
         5 <= n ->
         (In (RedAlert n) (alerts (alert_logic n last avg)) <-> n <> last))
  /\ (forall e1 e2 w m1 m2 a,
         reaches_report e1 = true ->
         analyse (detections (captured e1)) = Some m1 ->
         reaches_report e2 = true ->
         analyse (detections (captured e2)) = Some m2 ->
         4 <= num_empty m1 ->
         num_empty m2 = num_empty m1 ->
         In a (posted_alerts
                 (new_effects (run_inference_cycle e1 w)
                    (run_inference_cycle e2 (run_inference_cycle e1 w)))) ->
         is_threshold a = false).
Proof.
  split; [|split].
  - intros last avg. rewrite in_alert_logic, in_threshold_alerts.
    split.
    + intros [[(_ & _ & H)|[(E & _)|(E & _)]]|(E & _)];
        [exact H|discriminate..].
    + intros H. left. left. auto.
  - intros n last avg Hn. rewrite in_alert_logic, in_threshold_alerts.
    split.
    + intros [[(E & _)|[(_ & _ & H)|(E & _)]]|(E & _)];
        [discriminate|exact H|discriminate..].
    + intros H. left. right. left. auto.
  - intros e1 e2 w m1 m2 a H1 Hm1 H2 Hm2 Hband Hsame Ha.
    rewrite (posted_iff_emitted e2 _ m2 H2 Hm2) in Ha.
    unfold cycle_decision in Ha.
    rewrite (last_num_empty_after e1 w m1 H1 Hm1) in Ha.
    rewrite in_alert_logic, in_threshold_alerts in Ha.
    destruct Ha as [[(_ & _ & H)|[(_ & _ & H)|(-> & _)]]|(-> & _)];
      try reflexivity; congruence.
Qed.

Lemma threshold_events_edge_triggered_witness :
  (In YellowWarning (alerts (alert_logic 4 3 1)) <-> 4 <> 3)
  /\ (In (RedAlert 7) (alerts (alert_logic 7 7 1)) <-> 7 <> 7)
  /\ forall a,
       In a (posted_alerts
               (new_effects
                  (run_inference_cycle (env_one_frame four_empty_pots)
                                       fresh_world)
                  (run_inference_cycle (env_one_frame four_empty_pots)
                     (run_inference_cycle (env_one_frame four_empty_pots)
                                          fresh_world)))) ->
       is_threshold a = false.
Proof.
  destruct threshold_events_edge_triggered as (Hy & Hr & Hc).
  split; [apply Hy|]. split; [apply Hr; lia|].
  intros a.
  apply (Hc (env_one_frame four_empty_pots) (env_one_frame four_empty_pots)
            fresh_world _ _ a eq_refl eq_refl eq_refl eq_refl).
  - vm_compute. discriminate.
  - reflexivity.
Defined.

(** C7.  Whatever the confidence, a recovery event is emitted exactly when
    the stored count is 4 or more and the current count is below 4. *)
Theorem recovery_iff (n last : Z) (avg : Q) :
  In Recovery (alerts (alert_logic n last avg)) <-> 4 <= last /\ n < 4.
Proof.
  rewrite in_alert_logic, in_threshold_alerts.
  split.
  - intros [[(E & _)|[(E & _)|(_ & H1 & H2)]]|(E & _)];
      [discriminate..|auto|discriminate].
  - intros [H1 H2]. left. right. right. auto.
Qed.

(** C8.  A cycle whose average confidence is below 0.75 emits the health
    warning and has the red embed colour, whatever the current and stored
    counts are.  The other events of the cycle are those it would emit with
    any other confidence, and the health warning does co-occur with a
    threshold event and with a recovery. *)
Theorem health_warning_every_cycle (n last : Z) (avg : Q) :
  (avg < 3#4)%Q ->
  In (HealthWarning avg) (alerts (alert_logic n last avg))
  /\ color (alert_logic n last avg) = RED
  /\ should_alert (alert_logic n last avg) = true
  /\ (forall a avg',
         is_threshold a = true \/ a = Recovery ->
         (In a (alerts (alert_logic n last avg))
          <-> In a (alerts (alert_logic n last avg'))))
  /\ alerts (alert_logic 4 (-1) (1#2)) = [YellowWarning; HealthWarning (1#2)]
  /\ alerts (alert_logic 0 5 (1#2)) = [Recovery; HealthWarning (1#2)].
Proof.
  intros Havg. pose proof (proj2 (conf_below_iff avg (3#4)) Havg) as Hb.
  split; [|split; [|split; [|split; [|split]]]].
  - rewrite in_alert_logic. right. auto.
  - unfold alert_logic, health_check. now rewrite Hb.
  - unfold alert_logic, health_check. now rewrite Hb.
  - intros a avg' Ha. rewrite !in_alert_logic.
    split; (intros [H|[-> _]]; [now left|]);
      destruct Ha as [Ha|Ha]; discriminate.
  - reflexivity.
  - reflexivity.
Qed.

Lemma health_warning_every_cycle_witness :
  In (HealthWarning (7#10)) (alerts (alert_logic 4 4 (7#10)))
  /\ color (alert_logic 4 4 (7#10)) = RED.
Proof.
  destruct (health_warning_every_cycle 4 4 (7#10)) as (H1 & H2 & _).
  - reflexivity.
  - split; assumption.
Defined.

(** C10.  A missing or unparsable state file loads as a state whose
    [last_num_empty] reads as -1; the cycle that then runs to its end posts
    the yellow warning when it counts 4 empty pots, the red alert when it
    counts 5 or more, and never a recovery. *)
Theorem first_cycle_after_missing_state (f : file) :
  f = Absent \/ f = Corrupt ->
  get_last_num_empty (load_state f) = -1
  /\ forall e tr m,
       reaches_report e = true ->
       analyse (detections (captured e)) = Some m ->
       (num_empty m = 4 ->
        In YellowWarning
           (posted_alerts (new_effects (World f tr)
                             (run_inference_cycle e (World f tr)))))
       /\ (5 <= num_empty m ->
           In (RedAlert (num_empty m))
              (posted_alerts (new_effects (World f tr)
                                (run_inference_cycle e (World f tr)))))
       /\ ~ In Recovery
              (posted_alerts (new_effects (World f tr)
                                (run_inference_cycle e (World f tr)))).
Proof.
  intros Hf.
  assert (Hlast : get_last_num_empty (load_state f) = -1)
    by (destruct Hf as [-> | ->]; reflexivity).
  split; [exact Hlast|].
  intros e tr m H Hm.
  rewrite !(posted_iff_emitted e (World f tr) m H Hm).
  unfold cycle_decision. cbn [state_file]. rewrite Hlast.
  rewrite !in_alert_logic, !in_threshold_alerts.
  repeat split.
  - intros E. left. left. repeat split; lia.
  - intros E. left. right. left. repeat split; lia.
  - intros [[(E & _)|[(E & _)|(_ & _ & E)]]|(E & _)];
      [discriminate..|lia|discriminate].
Qed.

Lemma first_cycle_after_missing_state_witness :
  get_last_num_empty (load_state Corrupt) = -1
  /\ In YellowWarning
        (posted_alerts
           (new_effects (World Corrupt [])
              (run_inference_cycle (env_one_frame four_empty_pots)
                                   (World Corrupt [])))).
Proof.
  destruct (first_cycle_after_missing_state Corrupt (or_intror eq_refl))
    as [Hlast Hcycle].
  split; [exact Hlast|].
  apply (Hcycle (env_one_frame four_empty_pots) [] _ eq_refl eq_refl).
  reflexivity.
Defined.

(** ** The average confidence *)

(** C3, as amended.  The analysis always yields metrics, and their
    [avg_confidence] is the mean of the confidences of all frame-level
    detections, each detection counting once (so a track weighs as many
    times as it was detected); it is 0 when there is no aggregated
    object, which happens exactly when there is no detection. *)
Theorem avg_confidence_is_detection_mean (ds : list detection) :
  exists m,
    analyse ds = Some m
    /\ (avg_confidence m
        == match ds with
           | [] => 0
           | _ :: _ =>
               Py.sum (map d_conf ds) / inject_Z (Z.of_nat (length ds))
           end)%Q
    /\ (total_potes m = 0%nat <-> ds = [])
    /\ (total_potes m = 0%nat -> avg_confidence m == 0)%Q.
Proof.
  destruct (analyse_spec ds) as (t & Hm & _ & Hsum & Hcount).
  exists (compute_metrics t). split; [exact Hm|].
  assert (Havg : (avg_confidence (compute_metrics t)
                  == match ds with
                     | [] => 0
                     | _ :: _ =>
                         Py.sum (map d_conf ds)
                         / inject_Z (Z.of_nat (length ds))
                     end)%Q).
  { cbn [avg_confidence compute_metrics]. rewrite Hcount.
    destruct ds as [|d ds]; [reflexivity|].
    cbn [length]. now rewrite Hsum. }
  assert (Hzero : total_potes (compute_metrics t) = 0%nat <-> ds = []).
  { rewrite (total_potes_spec ds _ Hm), <- track_ids_nil_iff.
    destruct (track_ids ds); simpl; split; congruence. }
  split; [exact Havg|]. split; [exact Hzero|].
  intros H0. apply Hzero in H0. rewrite Havg, H0. reflexivity.
Qed.

(** C3, the claim as stated fails: with track 1 detected three times at
    0.5 and track 2 once at 1, the code reports 2.5 / 4 = 0.625, while the
    mean of the two per-object confidences is (0.5 + 1) / 2 = 0.75. *)
Lemma avg_confidence_not_object_mean :
  exists m,
    analyse uneven_tracks = Some m
    /\ Forall2 Qeq (map o_conf (sorted_objects m)) [1#2; 1]%Q
    /\ (avg_confidence m == 5#8)%Q
    /\ (spec_avg_confidence (sorted_objects m) == 3#4)%Q
    /\ ~ (avg_confidence m == spec_avg_confidence (sorted_objects m))%Q.
Proof.
  eexists. split; [reflexivity|].
  split; [repeat constructor|].
  repeat split; try (vm_compute; reflexivity).
  vm_compute. discriminate.
Qed.

(** ** The majority vote of a track *)

(** Every aggregated object is the object of a track that was detected. *)
Lemma sorted_objects_in (ds : list detection) (m : metrics) (o : object) :
  analyse ds = Some m ->
  In o (sorted_objects m) ->
  o = object_of ds (o_id o) /\ dets_of (o_id o) ds <> [].
Proof.
  destruct (analyse_spec ds) as (t & Hm & Hs & _). rewrite Hm.
  intros [= <-]. rewrite Hs, in_map_iff. intros (k & <- & Hk).
  split; [reflexivity|].
  rewrite sort_ids_in, track_ids_in in Hk.
  rewrite dets_of_nil_iff. simpl. tauto.
Qed.

(** C4, as amended.  For class ids in the range 0..7, the class given to
    a track leads the vote of that track and is the lowest-valued of the
    classes that lead it: a tie goes to the lowest class id, whichever
    detection is the most recent one. *)
Theorem vote_tie_goes_to_lowest_class
    (ds : list detection) (m : metrics) (o : object) :
  Forall (fun d => small_class (d_cls d)) ds ->
  analyse ds = Some m ->
  In o (sorted_objects m) ->
  leads (votes (group_of (o_id o) ds)) (o_cls o)
  /\ forall c', leads (votes (group_of (o_id o) ds)) c' -> o_cls o <= c'.
Proof.
  intros _ Hm Ho.
  destruct (sorted_objects_in ds m o Hm Ho) as [Eo Hne].
  destruct (majority_vote_total (votes (group_of (o_id o) ds))) as [c Hc].
  { simpl. destruct (dets_of (o_id o) ds); [contradiction|discriminate]. }
  assert (o_cls o = c) as ->.
  { rewrite Eo at 1. cbn [o_cls object_of]. now rewrite Hc. }
  now apply majority_vote_spec.
Qed.

Lemma vote_tie_goes_to_lowest_class_witness :
  exists m,
    analyse tied_track = Some m
    /\ Forall (fun o =>
                 leads (votes (group_of (o_id o) tied_track)) (o_cls o)
                 /\ forall c', leads (votes (group_of (o_id o) tied_track)) c'
                               -> o_cls o <= c')
              (sorted_objects m).
Proof.
  destruct (analyse tied_track) as [m|] eqn:E;
    [|vm_compute in E; discriminate].
  exists m. split; [reflexivity|].
  apply Forall_forall. intros o Ho.
  apply (vote_tie_goes_to_lowest_class tied_track m o).
  - repeat constructor; vm_compute; discriminate.
  - exact E.
  - exact Ho.
Defined.

(** C4, the claim as stated fails: a track seen as class 0 and then as
    class 1 has both classes tied; its most recent detection is of class
    1, which the tie-break of the specification selects, and the code
    gives the track class 0. *)
Lemma tie_not_broken_by_recency :
  exists m,
    analyse tied_track = Some m
    /\ map o_cls (sorted_objects m) = [0]
    /\ votes (group_of 1 tied_track) = [0; 1]
    /\ spec_tie_break [0; 1] 1
    /\ ~ spec_tie_break [0; 1] 0.
Proof.
  assert (Hlead : forall c, In c [0; 1] -> leads [0; 1] c).
  { assert (Hle : forall c', (Py.count [0; 1]%Z c' <= 1)%nat).
    { intros c'. unfold Py.count. cbn [count_occ].
      destruct (Z.eq_dec 0 c'), (Z.eq_dec 1 c'); lia. }
    intros c Hc. split; [exact Hc|]. intros c'.
    destruct Hc as [<-|[<-|[]]]; exact (Hle c'). }
  eexists. split; [reflexivity|].
  split; [reflexivity|]. split; [reflexivity|].
  split.
  - split; [apply Hlead; simpl; auto|]. split; [reflexivity|].
    intros H. exfalso. apply H. apply Hlead. simpl. auto.
  - intros (_ & H & _). simpl in H.
    assert (0 = 1) by (apply H, Hlead; simpl; auto). discriminate.
Qed.

(** ** Independence of the arrival order *)

Lemma fold_sum_acc (xs : list Q) (a : Q) :
  (fold_left Qplus xs a == a + Py.sum xs)%Q.
Proof.
  unfold Py.sum. revert a.
  induction xs as [|x xs IH]; intros a; simpl; [ring|].
  rewrite (IH (a + x)%Q), (IH (0 + x)%Q). ring.
Qed.

Lemma sum_cons (x : Q) (xs : list Q) :
  (Py.sum (x :: xs) == x + Py.sum xs)%Q.
Proof.
  unfold Py.sum at 1. simpl. rewrite fold_sum_acc. ring.
Qed.

Lemma sum_perm (xs ys : list Q) :
  Permutation xs ys -> (Py.sum xs == Py.sum ys)%Q.
Proof.
  induction 1 as [|x xs ys _ IH|x y xs|xs ys zs _ IH1 _ IH2].
  - reflexivity.
  - now rewrite !sum_cons, IH.
  - rewrite !sum_cons. ring.
  - now rewrite IH1.
Qed.

Lemma dets_of_perm (k : Z) (ds1 ds2 : list detection) :
  Permutation ds1 ds2 -> Permutation (dets_of k ds1) (dets_of k ds2).
Proof.
  unfold dets_of.
  induction 1 as [|d l1 l2 _ IH|d1 d2 l|l1 l2 l3 _ IH1 _ IH2]; simpl.
  - constructor.
  - destruct (d_id d =? k); [now constructor|exact IH].
  - destruct (d_id d1 =? k), (d_id d2 =? k);
      try reflexivity; now constructor.
  - now transitivity (List.filter (fun d => d_id d =? k) l2).
Qed.

(** The object of a track only depends on the detections of the track as
    a multiset. *)
Lemma object_of_perm (k : Z) (ds1 ds2 : list detection) :
  Permutation ds1 ds2 -> same_object (object_of ds1 k) (object_of ds2 k).
Proof.
  intros HP. apply (dets_of_perm k) in HP.
  unfold same_object, object_of, group_of. cbn [o_id o_cls o_conf votes confs].
  split; [reflexivity|]. split.
  - f_equal. apply majority_vote_perm. now apply Permutation_map.
  - rewrite (sum_perm _ _ (Permutation_map d_conf HP)).
    rewrite !length_map, (Permutation_length HP). reflexivity.
Qed.

Lemma sorted_track_ids_perm (ds1 ds2 : list detection) :
  Permutation ds1 ds2 ->
  sort_ids (track_ids ds1) = sort_ids (track_ids ds2).
Proof.
  intros HP.
  apply sorted_unique; try (apply sort_ids_sorted, track_ids_NoDup).
  intros x. rewrite !sort_ids_in, !track_ids_in.
  split; apply Permutation_in; [|symmetry]; now apply Permutation_map.
Qed.


(** *** The same loops in double precision *)











(** * Further properties of the cycle *)

(** ** The capture loop (lines 113-155) *)

Lemma last_default_irrelevant {A} (l : list A) (a d d' : A) :
  last (a :: l) d = last (a :: l) d'.
Proof.
  revert a. induction l as [|b l IH]; intros a; [reflexivity|].
  change (last (b :: l) d = last (b :: l) d'). apply IH.
Qed.

Lemma last_cons_default {A} (l : list A) (a d : A) :
  last (a :: l) d = last l a.
Proof.
  destruct l as [|b l]; [reflexivity|].
  change (last (b :: l) d = last (b :: l) a). apply last_default_irrelevant.
Qed.

Lemma capture_loop_full (frames : list frame) (c : capture) (w : world) :
  (FRAMES_TO_PROCESS <= frames_processed c)%nat ->
  capture_loop frames c w = (c, w).
Proof.
  intros H.
  assert (E : (frames_processed c <? FRAMES_TO_PROCESS)%nat = false)
    by (apply Nat.ltb_ge; exact H).
  destruct frames; cbn [capture_loop]; now rewrite E.
Qed.

(** A run of processed frames adds its boxes, in order, and leaves the
    image of its last frame. *)
Lemma capture_loop_tracked (good : list (image * list detection)) :
  forall (rest : list frame) (c : capture) (w : world),
  (frames_processed c + length good <= FRAMES_TO_PROCESS)%nat ->
  capture_loop (tracked good ++ rest) c w
  = capture_loop rest
      (Capture (detections c ++ concat (map snd good))
               (last (map (fun p => Some (fst p)) good)
                     (last_annotated_frame c))
               (frames_processed c + length good))
      w.
Proof.
  induction good as [|[img boxes] good IH]; intros rest c w Hlen.
  - cbn [tracked map app concat length last].
    rewrite app_nil_r, Nat.add_0_r. now destruct c.
  - cbn [length] in Hlen.
    assert (E : (frames_processed c <? FRAMES_TO_PROCESS)%nat = true)
      by (apply Nat.ltb_lt; lia).
    cbn [tracked map app capture_loop fst snd]. rewrite E.
    fold (tracked good).
    rewrite IH by (cbn [frames_processed]; lia).
    cbn [detections last_annotated_frame frames_processed map concat
         length fst snd].
    rewrite last_cons_default, <- app_assoc.
    now replace (S (frames_processed c) + length good)%nat
      with (frames_processed c + S (length good))%nat by lia.
Qed.

Lemma capture_loop_stops (rest : list frame) (c : capture) (w : world) :
  stops_capture rest -> fst (capture_loop rest c w) = c.
Proof.
  destruct rest as [|[| | |] rest]; cbn [stops_capture capture_loop];
    try contradiction; intros _;
    now destruct (frames_processed c <? FRAMES_TO_PROCESS)%nat.
Qed.

(** X1.  The capture loop tolerates a short or faulty window: when fewer
    than 20 frames were processed before the stream ended, a read failed or
    the tracker raised, or when 20 frames were processed, the cycle works
    on the boxes of exactly those frames, in arrival order, counts them,
    and keeps the annotated image of the last of them; what follows in the
    stream has no influence. *)
Theorem capture_keeps_processed_prefix
    (e : env) (good : list (image * list detection)) (rest : list frame) :
  length good = FRAMES_TO_PROCESS
  \/ ((length good < FRAMES_TO_PROCESS)%nat /\ stops_capture rest) ->
  captured (with_stream e (tracked good ++ rest))
  = Capture (concat (map snd good))
            (last (map (fun p => Some (fst p)) good) None)
            (length good).
Proof.
  intros H. unfold captured. cbn [stream with_stream].
  rewrite capture_loop_tracked
    by (cbn [frames_processed]; destruct H; lia).
  cbn [detections last_annotated_frame frames_processed app Nat.add].
  destruct H as [H|[_ H]].
  - rewrite capture_loop_full by (cbn [frames_processed]; lia).
    reflexivity.
  - now apply capture_loop_stops.
Qed.

Lemma capture_keeps_processed_prefix_witness :
  captured (env_frames two_frames_then_fault)
  = Capture (four_empty_pots ++ tied_track) (Some 1%nat) 2.
Proof.
  apply (capture_keeps_processed_prefix (env_frames [])
           [(0%nat, four_empty_pots); (1%nat, tied_track)]
           [TrackFailed; Tracked 2%nat uneven_tracks]).
  right. split; [vm_compute; lia|exact I].
Defined.

Lemma capture_loop_bounds (frames : list frame) :
  forall (c : capture) (w : world),
  (frames_processed c <= FRAMES_TO_PROCESS)%nat ->
  (frames_processed c <= frames_processed (fst (capture_loop frames c w))
   /\ frames_processed (fst (capture_loop frames c w)) <= FRAMES_TO_PROCESS
   /\ frames_processed (fst (capture_loop frames c w))
      <= frames_processed c + length frames)%nat.
Proof.
  induction frames as [|fr frames IH]; intros c w Hc; cbn [capture_loop].
  - destruct (frames_processed c <? FRAMES_TO_PROCESS)%nat;
      cbn [fst length]; lia.
  - destruct (Nat.ltb_spec (frames_processed c) FRAMES_TO_PROCESS)
      as [Hlt|Hge]; [|cbn [fst length]; lia].
    destruct fr as [| |img boxes|img boxes];
      cbn [fst length frames_processed]; try lia.
    specialize (IH (Capture (detections c ++ boxes) (Some img)
                            (S (frames_processed c))) w).
    cbn [frames_processed] in IH. specialize (IH Hlt). lia.
Qed.

Lemma capture_loop_firstn (frames : list frame) :
  forall (c : capture) (w : world),
  fst (capture_loop
         (firstn (FRAMES_TO_PROCESS - frames_processed c) frames) c w)
  = fst (capture_loop frames c w).
Proof.
  induction frames as [|fr frames IH]; intros c w.
  - now rewrite firstn_nil.
  - destruct (Nat.ltb_spec (frames_processed c) FRAMES_TO_PROCESS)
      as [Hlt|Hge].
    + destruct (FRAMES_TO_PROCESS - frames_processed c)%nat as [|k] eqn:E;
        [lia|].
      cbn [firstn capture_loop].
      destruct (frames_processed c <? FRAMES_TO_PROCESS)%nat;
        [|reflexivity].
      destruct fr as [| |img boxes|img boxes]; try reflexivity.
      rewrite <- IH. cbn [frames_processed].
      now replace (FRAMES_TO_PROCESS - S (frames_processed c))%nat with k
        by lia.
    + now rewrite !capture_loop_full.
Qed.

(** X2.  A cycle never processes more than 20 frames, nor more frames than
    the stream gives, and nothing beyond the first 20 frames of the stream
    is looked at. *)
Theorem capture_window_bounded (e : env) :
  (frames_processed (captured e) <= FRAMES_TO_PROCESS)%nat
  /\ (frames_processed (captured e) <= length (stream e))%nat
  /\ captured (with_stream e (firstn FRAMES_TO_PROCESS (stream e)))
     = captured e.
Proof.
  unfold captured. cbn [stream with_stream].
  destruct (capture_loop_bounds (stream e) (Capture [] None 0)
              (World Absent [])) as (_ & H1 & H2).
  { cbn [frames_processed]. lia. }
  cbn [frames_processed] in H2.
  repeat split; [exact H1|lia|].
  rewrite <- (capture_loop_firstn (stream e)). cbn [frames_processed].
  now rewrite Nat.sub_0_r.
Qed.

(** ** What a cycle sends (lines 84-111, 153-155, 199-283) *)

Lemma telemetry_posts_app (l1 l2 : list effect) :
  telemetry_posts (l1 ++ l2) = telemetry_posts l1 ++ telemetry_posts l2.
Proof.
  induction l1 as [|x l1 IH]; simpl; [reflexivity|].
  destruct x; simpl; auto. now rewrite IH.
Qed.

Lemma snapshot_writes_app (l1 l2 : list effect) :
  snapshot_writes (l1 ++ l2) = snapshot_writes l1 ++ snapshot_writes l2.
Proof.
  induction l1 as [|x l1 IH]; simpl; [reflexivity|].
  destruct x; simpl; auto. now rewrite IH.
Qed.

Lemma capture_logs_quiet (logs : list effect) :
  Forall (fun e => e = Log InferenceLoopError) logs ->
  telemetry_posts logs = [] /\ snapshot_writes logs = [].
Proof. induction 1 as [|x l -> _ IH]; simpl; auto. Qed.

Lemma dispatch_telemetry_posts (d : decision) (emb : embed)
    (f : option image) :
  telemetry_posts (dispatch_effects d emb f) = [].
Proof.
  unfold dispatch_effects. destruct (should_alert d); [|reflexivity].
  now destruct f.
Qed.

Lemma dispatch_snapshot_writes (d : decision) (emb : embed)
    (f : option image) :
  snapshot_writes (dispatch_effects d emb f)
  = if should_alert d
    then match f with Some img => [img] | None => [] end
    else [].
Proof.
  unfold dispatch_effects. destruct (should_alert d); [|reflexivity].
  now destruct f.
Qed.

Lemma no_telemetry_posts (l : list effect) :
  (forall t, ~ In (ThingsboardPost t) l) -> telemetry_posts l = [].
Proof.
  induction l as [|x l IH]; intros H; [reflexivity|].
  assert (Hl : telemetry_posts l = [])
    by (apply IH; intros t Ht; apply (H t); now right).
  destruct x; simpl; auto.
  exfalso. eapply H. now left.
Qed.

(** X3.  A cycle that gets past the early returns posts exactly one
    telemetry record, built from the metrics of the cycle, whether or not
    any alert fires; a cycle that returns early posts none. *)
Theorem telemetry_posted_once_per_completed_cycle (e : env) (w : world) :
  (reaches_report e = true ->
   exists m,
     analyse (detections (captured e)) = Some m
     /\ telemetry_posts (new_effects w (run_inference_cycle e w))
        = [Telemetry (total_potes m) (num_empty m) (pct_empty m)
                     (avg_confidence m) (empty_ids m)])
  /\ (reaches_report e = false ->
      telemetry_posts (new_effects w (run_inference_cycle e w)) = []).
Proof.
  split; intros H.
  - destruct (analyse_total (detections (captured e))) as [m Hm].
    exists m. split; [exact Hm|].
    destruct (run_completes_effects e w m H Hm) as (logs & Hlogs & _ & ->).
    destruct (capture_logs_quiet logs Hlogs) as [Ht _].
    change (Log Starting :: logs) with ([Log Starting] ++ logs).
    rewrite !telemetry_posts_app, Ht, dispatch_telemetry_posts.
    reflexivity.
  - destruct (run_aborts e w H) as (l & -> & _ & _ & Ht).
    rewrite new_effects_app. now apply no_telemetry_posts.
Qed.

Lemma telemetry_posted_once_per_completed_cycle_witness :
  length (telemetry_posts
            (new_effects fresh_world
               (run_inference_cycle (env_one_frame four_empty_pots)
                                    fresh_world))) = 1%nat
  /\ telemetry_posts
       (new_effects fresh_world
          (run_inference_cycle env_model_broken fresh_world)) = [].
Proof.
  split.
  - destruct (proj1 (telemetry_posted_once_per_completed_cycle
                       (env_one_frame four_empty_pots) fresh_world)
                    eq_refl) as (m & _ & ->).
    reflexivity.
  - apply (proj2 (telemetry_posted_once_per_completed_cycle
                    env_model_broken fresh_world)).
    reflexivity.
Defined.

(** X4.  What a cycle that returns early posts to the Discord webhook:
    nothing outside the operating hours (the model and the stream are not
    even looked at), the model-not-found message when the model file is
    missing, nothing when loading the model raises, the stream warning
    when the stream does not open, and nothing when no frame could be
    processed.  The two messages go out once, without embed or image. *)
Theorem early_return_notifications (e : env) (w : world) :
  reaches_report e = false ->
  discord_posts (new_effects w (run_inference_cycle e w))
  = if negb (in_hours e) then []
    else if negb (model_exists e)
         then [DiscordPost ModelNotFoundMsg None None]
    else if negb (model_loads e) then []
    else if negb (stream_opens e) then [DiscordPost RtspMsg None None]
    else [].
Proof.
  unfold reaches_report, in_hours, run_inference_cycle, captured.
  destruct ((hour e <? 6) || (hour e >=? 21)); cbn [negb andb].
  { intros _. flatten_trace. now rewrite new_effects_app. }
  destruct (model_exists e); cbn [negb andb].
  2:{ intros _. flatten_trace. now rewrite new_effects_app. }
  destruct (model_loads e); cbn [negb andb].
  2:{ intros _. flatten_trace. now rewrite new_effects_app. }
  destruct (stream_opens e); cbn [negb andb].
  2:{ intros _. flatten_trace. now rewrite new_effects_app. }
  intros H. apply negb_false_iff in H.
  destruct (capture_loop_world (stream e) (Capture [] None 0)
              (emit (Log Starting) w)) as (logs & -> & Hlogs).
  rewrite H. flatten_trace. rewrite new_effects_app.
  destruct (capture_logs_silent logs Hlogs) as (_ & _ & Hd).
  change (Log Starting :: logs ++ [Log NoFrames])
    with ([Log Starting] ++ logs ++ [Log NoFrames]).
  now rewrite !discord_posts_app, Hd.
Qed.

Lemma early_return_notifications_witness :
  discord_posts
    (new_effects fresh_world
       (run_inference_cycle (Env 10 true true false []) fresh_world))
  = [DiscordPost RtspMsg None None]
  /\ discord_posts
       (new_effects fresh_world
          (run_inference_cycle (Env 22 false false false []) fresh_world))
     = [].
Proof.
  split.
  - now rewrite (early_return_notifications (Env 10 true true false [])
                   fresh_world eq_refl).
  - now rewrite (early_return_notifications (Env 22 false false false [])
                   fresh_world eq_refl).
Defined.

(** A processed frame leaves an annotated image behind. *)
Lemma capture_loop_image (frames : list frame) :
  forall (c : capture) (w : world),
  (frames_processed c <> 0%nat -> last_annotated_frame c <> None) ->
  frames_processed (fst (capture_loop frames c w)) <> 0%nat ->
  last_annotated_frame (fst (capture_loop frames c w)) <> None.
Proof.
  induction frames as [|fr frames IH]; intros c w Hc; cbn [capture_loop].
  - now destruct (frames_processed c <? FRAMES_TO_PROCESS)%nat.
  - destruct (frames_processed c <? FRAMES_TO_PROCESS)%nat; [|exact Hc].
    destruct fr as [| |img boxes|img boxes]; cbn [fst]; try exact Hc.
    + cbn [last_annotated_frame]. discriminate.
    + apply IH. cbn [last_annotated_frame]. discriminate.
Qed.

(** X5.  A cycle that gets past the early returns always has an annotated
    frame at hand.  When it alerts, it writes that frame to the snapshot
    file once and attaches it to every post it makes; when it does not
    alert, it writes no snapshot and posts nothing. *)
Theorem alert_carries_snapshot (e : env) (w : world) (m : metrics) :
  reaches_report e = true ->
  analyse (detections (captured e)) = Some m ->
  exists img,
    last_annotated_frame (captured e) = Some img
    /\ (alerts (cycle_decision m w) <> [] ->
        snapshot_writes (new_effects w (run_inference_cycle e w)) = [img]
        /\ Forall (fun p => exists c emb, p = DiscordPost c emb (Some img))
                  (discord_posts (new_effects w (run_inference_cycle e w))))
    /\ (alerts (cycle_decision m w) = [] ->
        snapshot_writes (new_effects w (run_inference_cycle e w)) = []
        /\ discord_posts (new_effects w (run_inference_cycle e w)) = []).
Proof.
  intros H Hm.
  assert (Himg : last_annotated_frame (captured e) <> None).
  { unfold captured. apply capture_loop_image.
    - intros Hc. now contradiction Hc.
    - unfold reaches_report in H. rewrite !andb_true_iff in H.
      destruct H as [_ H]. apply negb_true_iff, Nat.eqb_neq in H. exact H. }
  destruct (last_annotated_frame (captured e)) as [img|] eqn:E;
    [|contradiction].
  exists img. split; [reflexivity|].
  destruct (run_completes_summary e w m H Hm) as (_ & _ & _ & Hd).
  destruct (run_completes_effects e w m H Hm) as (logs & Hlogs & _ & Hn).
  destruct (capture_logs_quiet logs Hlogs) as [_ Hs].
  assert (Hsnap : snapshot_writes (new_effects w (run_inference_cycle e w))
                  = if should_alert (cycle_decision m w) then [img] else []).
  { rewrite Hn.
    change (Log Starting :: logs) with ([Log Starting] ++ logs).
    rewrite !snapshot_writes_app, Hs, dispatch_snapshot_writes, E.
    simpl. now rewrite app_nil_r. }
  rewrite Hsnap, Hd, E.
  split; intros Ha.
  - apply alert_logic_should_alert in Ha. unfold cycle_decision at 1 2.
    rewrite Ha. split; [reflexivity|].
    repeat constructor; eauto.
  - destruct (should_alert (cycle_decision m w)) eqn:Es; [|auto].
    apply alert_logic_should_alert in Es. contradiction.
Qed.

Lemma alert_carries_snapshot_witness :
  snapshot_writes
    (new_effects fresh_world
       (run_inference_cycle (env_one_frame four_empty_pots) fresh_world))
  = [0%nat].
Proof.
  destruct (alert_carries_snapshot (env_one_frame four_empty_pots)
              fresh_world _ eq_refl eq_refl) as (img & Himg & Ha & _).
  injection Himg as <-.
  apply Ha. vm_compute. discriminate.
Defined.

(** ** The state store across a cycle (lines 36-47, 200, 220, 281-283) *)

(** X6.  A cycle that gets past the early returns leaves a parsable state
    file, also when it found none or an unparsable one; the saved state
    holds the current number of empty pots under [last_num_empty] and
    every other member of the loaded state unchanged. *)
Theorem saved_state_keeps_other_members (e : env) (w : world) (k : string) :
  reaches_report e = true ->
  exists m st,
    analyse (detections (captured e)) = Some m
    /\ state_file (run_inference_cycle e w) = Json st
    /\ st !! "last_num_empty"%string = Some (num_empty m)
    /\ (k <> "last_num_empty"%string ->
        st !! k = load_state (state_file w) !! k).
Proof.
  intros H.
  destruct (analyse_total (detections (captured e))) as [m Hm].
  destruct (run_completes_summary e w m H Hm) as (Hf & _).
  exists m, (next_state m w). split; [exact Hm|]. split; [exact Hf|].
  unfold next_state. split.
  - apply lookup_insert_eq.
  - intros Hk. apply lookup_insert_ne. congruence.
Qed.

Lemma saved_state_keeps_other_members_witness :
  exists st,
    state_file
      (run_inference_cycle (env_one_frame four_empty_pots)
         (World (Json {[ "installed"%string := 2024 ]}) []))
    = Json st
    /\ st !! "last_num_empty"%string = Some 4
    /\ st !! "installed"%string = Some 2024.
Proof.
  destruct (saved_state_keeps_other_members
              (env_one_frame four_empty_pots)
              (World (Json {[ "installed"%string := 2024 ]}) [])
              "installed"%string eq_refl)
    as (m & st & Hm & Hf & Hlast & Hk).
  exists st. split; [exact Hf|].
  injection Hm as <-.
  split; [exact Hlast|].
  rewrite Hk by discriminate. reflexivity.
Defined.

(** ** The alert rules as a whole (lines 218-251) *)

(** X7.  The embed colour does not depend on the stored count: it is red
    exactly when there are 5 or more empty pots or the average confidence
    is below 0.75, yellow exactly when there are 4 empty pots and the
    confidence is not below 0.75, and green exactly when there are fewer
    than 4 and the confidence is not below 0.75. *)
Theorem embed_colour_cases (n last : Z) (avg : Q) :
  (color (alert_logic n last avg) = RED <-> 5 <= n \/ (avg < 3#4)%Q)
  /\ (color (alert_logic n last avg) = YELLOW
      <-> n = 4 /\ ~ (avg < 3#4)%Q)
  /\ (color (alert_logic n last avg) = GREEN
      <-> n < 4 /\ ~ (avg < 3#4)%Q).
Proof.
  assert (Hc : color (threshold_rules n last)
               = if n =? 4 then YELLOW else if n >=? 5 then RED else GREEN).
  { unfold threshold_rules.
    destruct (n =? 4); [now destruct (negb (n =? last))|].
    destruct (n >=? 5); [now destruct (negb (n =? last))|].
    now destruct (last >=? 4). }
  unfold alert_logic, health_check.
  destruct (conf_below avg (3#4)) eqn:E.
  - apply conf_below_iff in E. cbn [color].
    split; [|split]; split.
    + auto.
    + reflexivity.
    + discriminate.
    + intros [_ H]. contradiction.
    + discriminate.
    + intros [_ H]. contradiction.
  - assert (Hn : ~ (avg < 3#4)%Q)
      by (intros H; apply conf_below_iff in H; congruence).
    rewrite Hc.
    destruct (Z.eqb_spec n 4) as [->|N4];
      [|destruct (Z.geb_spec n 5) as [G5|L5]];
      (split; [|split]); split;
      try discriminate; try (intros _; reflexivity);
      try (intros [? ?]; lia); try (intros [?|?]; [lia|contradiction]);
      try (intros _; split; [lia|exact Hn]); auto.
Qed.

(** X8.  A cycle emits at most two events, at most one of them is not the
    health warning, and it emits none at all, so that nothing is posted,
    exactly when the confidence is not below 0.75 and either the count is
    4 or more and equal to the stored count, or both the count and the
    stored count are below 4. *)
Theorem silent_cycle_iff (n last : Z) (avg : Q) :
  (length (alerts (alert_logic n last avg)) <= 2)%nat
  /\ (length (alerts (threshold_rules n last)) <= 1)%nat
  /\ (should_alert (alert_logic n last avg) = false
      <-> ~ (avg < 3#4)%Q
          /\ ((4 <= n /\ n = last) \/ (n < 4 /\ last < 4))).
Proof.
  assert (Hlen : (length (alerts (threshold_rules n last)) <= 1)%nat).
  { unfold threshold_rules.
    repeat match goal with
           | |- context [if ?b then _ else _] => destruct b
           end; simpl; lia. }
  split; [|split; [exact Hlen|]].
  - rewrite alert_logic_alerts, length_app.
    destruct (conf_below avg (3#4)); simpl; lia.
  - assert (Hsa : should_alert (alert_logic n last avg) = false
                  <-> alerts (alert_logic n last avg) = []).
    { pose proof (alert_logic_should_alert n last avg) as H.
      destruct (should_alert (alert_logic n last avg)) eqn:Es.
      - split; [discriminate|]. intros Hnil.
        destruct H as [H _]. now specialize (H eq_refl).
      - split; [|reflexivity]. intros _.
        destruct (alerts (alert_logic n last avg)) as [|a l];
          [reflexivity|].
        destruct H as [_ H]. discriminate H. discriminate. }
    rewrite Hsa.
    split.
    + intros Hnil.
      assert (Hno : forall a, ~ In a (alerts (alert_logic n last avg)))
        by (intros a; rewrite Hnil; intros []).
      split.
      * intros Havg. apply (Hno (HealthWarning avg)).
        rewrite in_alert_logic. right. auto.
      * destruct (Z.eq_dec n last) as [->|Hne].
        -- destruct (Z.lt_ge_cases last 4); [right|left]; lia.
        -- destruct (Z.lt_ge_cases n 4) as [Hn|Hn].
           ++ right. split; [exact Hn|].
              destruct (Z.lt_ge_cases last 4) as [Hl|Hl]; [exact Hl|].
              exfalso. apply (Hno Recovery).
              rewrite in_alert_logic, in_threshold_alerts. left. right.
              right. auto.
           ++ exfalso. destruct (Z.eq_dec n 4) as [->|N4].
              ** apply (Hno YellowWarning).
                 rewrite in_alert_logic, in_threshold_alerts. left. left.
                 auto.
              ** apply (Hno (RedAlert n)).
                 rewrite in_alert_logic, in_threshold_alerts. left. right.
                 left. repeat split; [lia|exact Hne].
    + intros [Havg Hcase].
      destruct (alerts (alert_logic n last avg)) as [|a l] eqn:Ea;
        [reflexivity|].
      exfalso.
      assert (Ha : In a (alerts (alert_logic n last avg)))
        by (rewrite Ea; now left).
      rewrite in_alert_logic, in_threshold_alerts in Ha.
      destruct Ha as [[(_ & ? & ?)|[(_ & ? & ?)|(_ & ? & ?)]]|(_ & ?)];
        try contradiction; lia.
Qed.

(** X9.  A cycle that processes at least one frame but sees no detection
    is not treated as a failure: it reports zero pots, posts the health
    warning for a confidence of 0 with a red embed whatever the stored
    count is, posts a recovery exactly when the stored count was 4 or
    more, never posts a threshold event, and stores a count of 0. *)
Theorem empty_scene_raises_health_warning (e : env) (w : world) :
  reaches_report e = true ->
  detections (captured e) = [] ->
  In (HealthWarning 0)
     (posted_alerts (new_effects w (run_inference_cycle e w)))
  /\ (In Recovery (posted_alerts (new_effects w (run_inference_cycle e w)))
      <-> 4 <= get_last_num_empty (load_state (state_file w)))
  /\ (forall a,
         In a (posted_alerts (new_effects w (run_inference_cycle e w))) ->
         is_threshold a = false)
  /\ Forall (fun p => exists c emb img,
                 p = DiscordPost c (Some emb) img /\ e_color emb = RED
                 /\ e_total_potes emb = 0%nat)
            (discord_posts (new_effects w (run_inference_cycle e w)))
  /\ get_last_num_empty
       (load_state (state_file (run_inference_cycle e w))) = 0.
Proof.
  intros H Hd.
  assert (Hm : analyse (detections (captured e))
               = Some (compute_metrics (Tally [] 0 0)))
    by (rewrite Hd; reflexivity).
  set (m := compute_metrics (Tally [] 0 0)) in *.
  pose proof (posted_iff_emitted e w m H Hm) as Hp.
  destruct (run_completes_summary e w m H Hm) as (_ & _ & _ & Hposts).
  assert (Hdec : cycle_decision m w
                 = alert_logic 0 (get_last_num_empty
                                    (load_state (state_file w))) 0)
    by reflexivity.
  repeat split.
  - apply Hp. rewrite Hdec, in_alert_logic. right. split; reflexivity.
  - intros Hr. apply Hp in Hr.
    rewrite Hdec, in_alert_logic, in_threshold_alerts in Hr.
    destruct Hr as [[(E & _)|[(E & _)|(_ & _ & Hr)]]|(E & _)];
      try discriminate. exact Hr.
  - intros Hl. apply Hp.
    rewrite Hdec, in_alert_logic, in_threshold_alerts. left. right. right.
    split; [reflexivity|]. split; [lia|exact Hl].
  - intros a Ha. apply Hp in Ha.
    rewrite Hdec, in_alert_logic, in_threshold_alerts in Ha.
    destruct Ha as [[(_ & Ha & _)|[(_ & Ha & _)|(-> & _)]]|(-> & _)];
      try reflexivity; lia.
  - rewrite Hposts.
    assert (Hcol : color (cycle_decision m w) = RED)
      by (rewrite Hdec; unfold alert_logic, health_check; reflexivity).
    destruct (should_alert (cycle_decision m w)); [|constructor].
    repeat constructor; do 3 eexists; repeat split; exact Hcol.
  - apply (last_num_empty_after e w m H Hm).
Qed.

Lemma empty_scene_raises_health_warning_witness :
  In (HealthWarning 0)
     (posted_alerts
        (new_effects fresh_world
           (run_inference_cycle (env_one_frame []) fresh_world))).
Proof.
  apply (empty_scene_raises_health_warning (env_one_frame []) fresh_world);
    reflexivity.
Defined.

(** * Further properties of the analysis *)

(** ** Grouping (lines 159-166) *)

(** X10.  The grouping loop makes one entry per track id that occurs in
    the detections and no other; the entry of a track holds the classes
    and the confidences of exactly the detections of that track, in
    arrival order, so no entry is empty and no detection is lost or
    counted twice. *)
Theorem group_by_id_partitions (ds : list detection) :
  NoDup (map fst (group_by_id ds))
  /\ (forall k g,
         In (k, g) (group_by_id ds)
         <-> In k (map d_id ds)
             /\ g = Group (map d_cls (dets_of k ds))
                          (map d_conf (dets_of k ds)))
  /\ (forall k g, In (k, g) (group_by_id ds) -> votes g <> [])
  /\ groups_count (group_by_id ds) = length ds.
Proof.
  assert (Hin : forall k g,
             In (k, g) (group_by_id ds)
             <-> In k (map d_id ds) /\ g = group_of k ds).
  { intros k g. rewrite group_by_id_eq, in_map_iff. split.
    - intros (k' & [= <- <-] & Hk). now rewrite <- track_ids_in.
    - intros [Hk ->]. exists k. now rewrite track_ids_in. }
  split; [|split; [exact Hin|split]].
  - rewrite group_by_id_eq, map_map. cbn [fst]. rewrite map_id.
    apply track_ids_NoDup.
  - intros k g Hg. apply Hin in Hg. destruct Hg as [Hk ->].
    cbn [votes group_of]. intros Hnil.
    apply map_eq_nil, dets_of_nil_iff in Hnil. contradiction.
  - apply groups_count_group_by_id.
Qed.

(** ** The aggregated objects (lines 168-190) *)

Lemma object_ids (ds : list detection) (l : list Z) :
  map o_id (map (object_of ds) l) = l.
Proof. rewrite map_map. cbn [o_id object_of]. apply map_id. Qed.

Lemma object_of_class (ds : list detection) (k c : Z) :
  In k (map d_id ds) ->
  (o_cls (object_of ds k) = c <-> majority_vote (votes_of k ds) = Some c).
Proof.
  intros Hk. cbn [o_cls object_of]. fold (votes_of k ds).
  change (votes (group_of k ds)) with (votes_of k ds).
  destruct (majority_vote_total (votes_of k ds)) as [c' Hc'].
  { unfold votes_of. intros Hnil.
    apply map_eq_nil, dets_of_nil_iff in Hnil. contradiction. }
  rewrite Hc'. simpl. split; congruence.
Qed.

(** X11.  The aggregated objects come out in strictly ascending order of
    track id, one object for each track id that occurs in the detections
    and none for any other id; there are never more objects than
    detections. *)
Theorem objects_one_per_track_ascending (ds : list detection) :
  exists m,
    analyse ds = Some m
    /\ StronglySorted Z.lt (map o_id (sorted_objects m))
    /\ (forall k, In k (map o_id (sorted_objects m)) <-> In k (map d_id ds))
    /\ total_potes m = length (sorted_objects m)
    /\ (total_potes m <= length ds)%nat.
Proof.
  destruct (analyse_spec ds) as (t & Hm & Hs & _).
  exists (compute_metrics t). split; [exact Hm|].
  split; [rewrite Hs, object_ids; apply sort_ids_sorted, track_ids_NoDup|].
  split; [intros k; now rewrite Hs, object_ids, sort_ids_in, track_ids_in|].
  split; [reflexivity|].
  rewrite (total_potes_spec ds _ Hm), <- (length_map d_id ds).
  apply NoDup_incl_length; [apply track_ids_NoDup|].
  intros k Hk. now apply track_ids_in.
Qed.

Lemma filter_sorted (f : Z -> bool) (l : list Z) :
  StronglySorted Z.lt l -> StronglySorted Z.lt (List.filter f l).
Proof.
  induction 1 as [|x l Hl IH Hx]; simpl; [constructor|].
  destruct (f x); [|exact IH].
  constructor; [exact IH|].
  rewrite Forall_forall in *. intros y Hy.
  apply filter_In in Hy. now apply Hx.
Qed.

Lemma filter_map_objects (ds : list detection) (f : object -> bool)
    (l : list Z) :
  map o_id (List.filter f (map (object_of ds) l))
  = List.filter (fun k => f (object_of ds k)) l.
Proof.
  induction l as [|k l IH]; [reflexivity|].
  cbn [map List.filter]. destruct (f (object_of ds k)); cbn [map];
    now rewrite IH.
Qed.

(** X12.  The ids reported as empty are, in strictly ascending order,
    exactly the detected tracks whose majority vote is class 0, and
    [num_empty] is their number. *)
Theorem empty_ids_are_tracks_voted_empty (ds : list detection) :
  exists m,
    analyse ds = Some m
    /\ StronglySorted Z.lt (empty_ids m)
    /\ (forall k,
           In k (empty_ids m)
           <-> In k (map d_id ds)
               /\ majority_vote (votes_of k ds) = Some CLASS_VAZIO)
    /\ num_empty m = Z.of_nat (length (empty_ids m)).
Proof.
  destruct (analyse_spec ds) as (t & Hm & Hs & _).
  exists (compute_metrics t). split; [exact Hm|].
  assert (He : empty_ids (compute_metrics t)
               = List.filter
                   (fun k => o_cls (object_of ds k) =? CLASS_VAZIO)
                   (sort_ids (track_ids ds))).
  { change (empty_ids (compute_metrics t))
      with (map o_id (List.filter (fun o => o_cls o =? CLASS_VAZIO)
                        (sorted_objects (compute_metrics t)))).
    now rewrite Hs, filter_map_objects. }
  split; [rewrite He; apply filter_sorted, sort_ids_sorted,
            track_ids_NoDup|].
  split.
  - intros k. rewrite He, filter_In, sort_ids_in, track_ids_in, Z.eqb_eq.
    split; intros [Hk Hc]; (split; [exact Hk|]);
      now apply (object_of_class ds k CLASS_VAZIO Hk).
  - cbn [num_empty empty_ids compute_metrics]. now rewrite length_map.
Qed.

Lemma count_two_classes (vs : list Z) (c c' : Z) :
  c <> c' -> (Py.count vs c + Py.count vs c' <= length vs)%nat.
Proof.
  intros Hne. unfold Py.count.
  induction vs as [|v vs IH]; cbn [count_occ length]; [lia|].
  destruct (Z.eq_dec v c), (Z.eq_dec v c'); lia.
Qed.

(** X13.  A class that has more than half of the votes of a track is the
    class the track gets; in particular a track always seen as the same
    class gets that class. *)
Theorem strict_majority_wins (ds : list detection) (k c : Z) :
  (length (votes_of k ds) < 2 * Py.count (votes_of k ds) c)%nat ->
  exists m o,
    analyse ds = Some m
    /\ In o (sorted_objects m) /\ o_id o = k /\ o_cls o = c.
Proof.
  intros Hmaj.
  assert (Hk : In k (map d_id ds)).
  { destruct (in_dec Z.eq_dec k (map d_id ds)) as [Hk|Hk]; [exact Hk|].
    apply dets_of_nil_iff in Hk. unfold votes_of in Hmaj.
    rewrite Hk in Hmaj. cbn in Hmaj. lia. }
  destruct (analyse_spec ds) as (t & Hm & Hs & _).
  exists (compute_metrics t), (object_of ds k).
  split; [exact Hm|]. split; [|split; [reflexivity|]].
  - rewrite Hs. apply in_map. now rewrite sort_ids_in, track_ids_in.
  - apply (object_of_class ds k c Hk).
    destruct (majority_vote_total (votes_of k ds)) as [c0 Hc0].
    { intros Hnil. rewrite Hnil in Hmaj. cbn in Hmaj. lia. }
    rewrite Hc0. f_equal.
    destruct (Z.eq_dec c0 c) as [E|Hne]; [exact E|].
    apply majority_vote_spec in Hc0. destruct Hc0 as [[_ Hlead] _].
    specialize (Hlead c).
    pose proof (count_two_classes (votes_of k ds) c0 c Hne). lia.
Qed.

Lemma strict_majority_wins_witness :
  exists m o,
    analyse mixed_tracks = Some m
    /\ In o (sorted_objects m) /\ o_id o = 5 /\ o_cls o = CLASS_RACAO.
Proof.
  apply (strict_majority_wins mixed_tracks 5 CLASS_RACAO).
  vm_compute. lia.
Defined.

(** ** The metrics (lines 182-195) *)

Lemma inject_nat_pos (n : nat) : (0 < inject_Z (Z.of_nat (S n)))%Q.
Proof. unfold Qlt. simpl. lia. Qed.

Lemma inject_nat_succ (n : nat) :
  (inject_Z (Z.of_nat (S n)) == inject_Z (Z.of_nat n) + 1)%Q.
Proof. rewrite Nat2Z.inj_succ. unfold Z.succ. now rewrite inject_Z_plus. Qed.

(** X14.  The number of empty pots lies between 0 and the number of
    objects, the percentage of empty pots lies between 0 and 100, and it
    is 0 when there is no object. *)
Theorem empty_share_bounded (ds : list detection) :
  exists m,
    analyse ds = Some m
    /\ 0 <= num_empty m <= Z.of_nat (total_potes m)
    /\ (0 <= pct_empty m)%Q /\ (pct_empty m <= 100)%Q
    /\ (total_potes m = 0%nat -> pct_empty m = 0%Q).
Proof.
  destruct (analyse_spec ds) as (t & Hm & _).
  exists (compute_metrics t). split; [exact Hm|].
  cbn [num_empty pct_empty total_potes compute_metrics].
  set (sorted := sort_by_id (final_objects t)).
  set (n := length (List.filter (fun o => o_cls o =? CLASS_VAZIO) sorted)).
  assert (Hn : (n <= length sorted)%nat) by apply List.filter_length_le.
  split; [lia|].
  destruct (length sorted) as [|k] eqn:E.
  - repeat split; try reflexivity; discriminate.
  - pose proof (inject_nat_pos k) as Hpos.
    assert (Hle : (inject_Z (Z.of_nat n) <= inject_Z (Z.of_nat (S k)))%Q)
      by (rewrite <- Zle_Qle; lia).
    assert (H0 : (0 <= inject_Z (Z.of_nat n))%Q)
      by (change 0%Q with (inject_Z 0); rewrite <- Zle_Qle; lia).
    repeat split.
    + apply Qmult_le_0_compat; [|discriminate].
      apply Qle_shift_div_l; [exact Hpos|]. now rewrite Qmult_0_l.
    + apply Qle_trans with (1 * 100)%Q; [|discriminate].
      apply Qmult_le_compat_r; [|discriminate].
      apply Qle_shift_div_r; [exact Hpos|]. now rewrite Qmult_1_l.
    + discriminate.
Qed.

Lemma sum_bounds (lo hi : Q) (xs : list Q) :
  Forall (fun x => lo <= x /\ x <= hi)%Q xs ->
  (lo * inject_Z (Z.of_nat (length xs)) <= Py.sum xs)%Q
  /\ (Py.sum xs <= hi * inject_Z (Z.of_nat (length xs)))%Q.
Proof.
  induction 1 as [|x xs [Hlo Hhi] _ [IHlo IHhi]].
  - cbn [length]. change (inject_Z (Z.of_nat 0)) with 0%Q.
    rewrite !Qmult_0_r. split; apply Qle_refl.
  - cbn [length]. rewrite sum_cons, inject_nat_succ. split.
    + assert (E : (lo * (inject_Z (Z.of_nat (length xs)) + 1)
                   == lo + lo * inject_Z (Z.of_nat (length xs)))%Q) by ring.
      rewrite E. now apply Qplus_le_compat.
    + assert (E : (hi * (inject_Z (Z.of_nat (length xs)) + 1)
                   == hi + hi * inject_Z (Z.of_nat (length xs)))%Q) by ring.
      rewrite E. now apply Qplus_le_compat.
Qed.

Lemma mean_bounds (lo hi : Q) (xs : list Q) :
  xs <> [] ->
  Forall (fun x => lo <= x /\ x <= hi)%Q xs ->
  (lo <= Py.sum xs / inject_Z (Z.of_nat (length xs)))%Q
  /\ (Py.sum xs / inject_Z (Z.of_nat (length xs)) <= hi)%Q.
Proof.
  intros Hne Hall. destruct (sum_bounds lo hi xs Hall) as [Hlo Hhi].
  destruct xs as [|x xs]; [contradiction|].
  pose proof (inject_nat_pos (length xs)) as Hpos.
  split.
  - now apply Qle_shift_div_l.
  - now apply Qle_shift_div_r.
Qed.

Lemma avg_confidence_eq (ds : list detection) (t : tally) :
  ds <> [] ->
  (total_conf t == Py.sum (map d_conf ds))%Q ->
  count_conf t = length ds ->
  (avg_confidence (compute_metrics t)
   == Py.sum (map d_conf ds)
      / inject_Z (Z.of_nat (length (map d_conf ds))))%Q.
Proof.
  intros Hne Hsum Hcount. cbn [avg_confidence compute_metrics].
  rewrite Hcount, length_map.
  destruct ds as [|d ds]; [contradiction|].
  cbn [length]. now rewrite Hsum.
Qed.

(** X15.  The confidence of an aggregated object is the mean of the
    confidences of the detections of its track.  When every detection has
    its confidence between two bounds (the tracker is asked for 0.5 at
    least, and a confidence is at most 1), so has every aggregated object,
    and so has the average confidence of a cycle that saw a detection. *)
Theorem confidences_stay_within_bounds (lo hi : Q) (ds : list detection) :
  Forall (conf_between lo hi) ds ->
  exists m,
    analyse ds = Some m
    /\ (forall o,
           In o (sorted_objects m) ->
           (o_conf o
            == Py.sum (map d_conf (dets_of (o_id o) ds))
               / inject_Z (Z.of_nat (length (dets_of (o_id o) ds))))%Q
           /\ (lo <= o_conf o)%Q /\ (o_conf o <= hi)%Q)
    /\ (ds <> [] ->
        (lo <= avg_confidence m)%Q /\ (avg_confidence m <= hi)%Q).
Proof.
  intros Hall.
  assert (Hmap : forall l,
             Forall (conf_between lo hi) l ->
             Forall (fun x => lo <= x /\ x <= hi)%Q (map d_conf l)).
  { intros l Hl. rewrite Forall_map. exact Hl. }
  destruct (analyse_spec ds) as (t & Hm & Hs & Hsum & Hcount).
  exists (compute_metrics t). split; [exact Hm|]. split.
  - intros o Ho.
    destruct (sorted_objects_in ds _ o Hm Ho) as [Eo Hne].
    rewrite Eo. cbn [o_conf o_id object_of confs group_of].
    rewrite length_map. split; [reflexivity|].
    rewrite <- (length_map d_conf).
    apply mean_bounds.
    + intros Hnil. apply map_eq_nil in Hnil. contradiction.
    + apply Hmap. rewrite Forall_forall in *. intros d Hd.
      apply Hall. unfold dets_of in Hd. apply filter_In in Hd. tauto.
  - intros Hne. rewrite (avg_confidence_eq ds t Hne Hsum Hcount).
    apply mean_bounds; [|now apply Hmap].
    intros Hnil. apply map_eq_nil in Hnil. contradiction.
Qed.

Lemma confidences_stay_within_bounds_witness :
  exists m,
    analyse mixed_tracks = Some m
    /\ (1#2 <= avg_confidence m)%Q /\ (avg_confidence m <= 1)%Q.
Proof.
  destruct (confidences_stay_within_bounds (1#2) 1 mixed_tracks)
    as (m & Hm & _ & Havg).
  - repeat constructor; vm_compute; discriminate.
  - exists m. split; [exact Hm|]. apply Havg. discriminate.
Defined.

(** X16.  For class ids in the range 0..7 and confidences taken as exact
    numbers, the metrics of a cycle do not depend on the order in which
    the detections arrived: the number of objects, the number and the ids
    of the empty pots and the percentage are the same, and the average
    confidence is equal. *)
Theorem metrics_order_independent (ds1 ds2 : list detection) :
  Forall (fun d => small_class (d_cls d)) ds1 ->
  Permutation ds1 ds2 ->
  exists m1 m2,
    analyse ds1 = Some m1 /\ analyse ds2 = Some m2
    /\ total_potes m1 = total_potes m2
    /\ num_empty m1 = num_empty m2
    /\ empty_ids m1 = empty_ids m2
    /\ pct_empty m1 = pct_empty m2
    /\ (avg_confidence m1 == avg_confidence m2)%Q.
Proof.
  intros _ HP.
  destruct (analyse_spec ds1) as (t1 & Hm1 & Hs1 & Hsum1 & Hc1).
  destruct (analyse_spec ds2) as (t2 & Hm2 & Hs2 & Hsum2 & Hc2).
  exists (compute_metrics t1), (compute_metrics t2).
  split; [exact Hm1|]. split; [exact Hm2|].
  assert (Hcls : map o_cls (sorted_objects (compute_metrics t1))
                 = map o_cls (sorted_objects (compute_metrics t2))
                 /\ map o_id (sorted_objects (compute_metrics t1))
                    = map o_id (sorted_objects (compute_metrics t2))).
  { rewrite Hs1, Hs2, (sorted_track_ids_perm ds1 ds2 HP), !object_ids.
    split; [|reflexivity].
    rewrite !map_map. apply map_ext. intros k.
    now destruct (object_of_perm k ds1 ds2 HP) as (_ & E & _). }
  destruct Hcls as [Hcls Hids].
  assert (Hlen : length (sorted_objects (compute_metrics t1))
                 = length (sorted_objects (compute_metrics t2)))
    by (rewrite <- (length_map o_id), Hids; apply length_map).
  assert (Hempty : empty_ids (compute_metrics t1)
                   = empty_ids (compute_metrics t2)).
  { change (map o_id (List.filter (fun o => o_cls o =? CLASS_VAZIO)
                        (sorted_objects (compute_metrics t1)))
            = map o_id (List.filter (fun o => o_cls o =? CLASS_VAZIO)
                          (sorted_objects (compute_metrics t2)))).
    revert Hcls Hids.
    generalize (sorted_objects (compute_metrics t1)) as l1,
               (sorted_objects (compute_metrics t2)) as l2.
    induction l1 as [|a l1 IH]; intros [|b l2]; try discriminate;
      [reflexivity|].
    cbn [map List.filter]. intros [= Hc Hcs] [= Hi His]. rewrite Hc.
    destruct (o_cls b =? CLASS_VAZIO); cbn [map];
      rewrite ?Hi; now rewrite (IH l2 Hcs His). }
  assert (Hnum : num_empty (compute_metrics t1)
                 = num_empty (compute_metrics t2)).
  { change (Z.of_nat (length (List.filter (fun o => o_cls o =? CLASS_VAZIO)
                                (sorted_objects (compute_metrics t1))))
            = Z.of_nat (length (List.filter
                                  (fun o => o_cls o =? CLASS_VAZIO)
                                  (sorted_objects (compute_metrics t2))))).
    rewrite <- (length_map o_id), <- (length_map o_id (List.filter _ _)).
    change (Z.of_nat (length (empty_ids (compute_metrics t1)))
            = Z.of_nat (length (empty_ids (compute_metrics t2)))).
    now rewrite Hempty. }
  split; [exact Hlen|]. split; [exact Hnum|]. split; [exact Hempty|].
  split.
  - change (pct_empty (compute_metrics t1))
      with (match total_potes (compute_metrics t1) with
            | O => 0
            | S _ => inject_Z (num_empty (compute_metrics t1))
                     / inject_Z (Z.of_nat (total_potes (compute_metrics t1)))
                     * 100
            end)%Q.
    change (pct_empty (compute_metrics t2))
      with (match total_potes (compute_metrics t2) with
            | O => 0
            | S _ => inject_Z (num_empty (compute_metrics t2))
                     / inject_Z (Z.of_nat (total_potes (compute_metrics t2)))
                     * 100
            end)%Q.
    change (total_potes (compute_metrics t1))
      with (length (sorted_objects (compute_metrics t1))).
    change (total_potes (compute_metrics t2))
      with (length (sorted_objects (compute_metrics t2))).
    now rewrite Hlen, Hnum.
  - cbn [avg_confidence compute_metrics].
    rewrite Hc1, Hc2, (Permutation_length HP).
    destruct (length ds2); [reflexivity|].
    rewrite Hsum1, Hsum2.
    now rewrite (sum_perm _ _ (Permutation_map d_conf HP)).
Qed.

Lemma metrics_order_independent_witness :
  exists m1 m2,
    analyse mixed_tracks = Some m1 /\ analyse (rev mixed_tracks) = Some m2
    /\ empty_ids m1 = empty_ids m2
    /\ (avg_confidence m1 == avg_confidence m2)%Q.
Proof.
  destruct (metrics_order_independent mixed_tracks (rev mixed_tracks))
    as (m1 & m2 & H1 & H2 & _ & _ & He & _ & Ha).
  - repeat constructor; vm_compute; discriminate.
  - apply Permutation_rev.
  - exists m1, m2. auto.
Defined.

(** * Further properties of consecutive cycles *)

(** X17.  Of two consecutive cycles that get past the early returns, the
    second posts a threshold event exactly when it counts 4 or more empty
    pots and that count differs from the count of the first, and it posts
    a recovery exactly when it counts fewer than 4 and the first counted 4
    or more; so a cycle whose count equals that of the cycle before it
    posts nothing but, possibly, the health warning. *)
Theorem second_cycle_alerts_on_change
    (e1 e2 : env) (w : world) (m1 m2 : metrics) :
  reaches_report e1 = true ->
  analyse (detections (captured e1)) = Some m1 ->
  reaches_report e2 = true ->
  analyse (detections (captured e2)) = Some m2 ->
  ((exists a,
       In a (posted_alerts
               (new_effects (run_inference_cycle e1 w)
                  (run_inference_cycle e2 (run_inference_cycle e1 w))))
       /\ is_threshold a = true)
   <-> 4 <= num_empty m2 /\ num_empty m2 <> num_empty m1)
  /\ (In Recovery
         (posted_alerts
            (new_effects (run_inference_cycle e1 w)
               (run_inference_cycle e2 (run_inference_cycle e1 w))))
      <-> num_empty m2 < 4 /\ 4 <= num_empty m1)
  /\ (num_empty m2 = num_empty m1 ->
      forall a,
        In a (posted_alerts
                (new_effects (run_inference_cycle e1 w)
                   (run_inference_cycle e2 (run_inference_cycle e1 w)))) ->
        a = HealthWarning (avg_confidence m2)).
Proof.
  intros H1 Hm1 H2 Hm2.
  assert (Hp : forall a,
             In a (posted_alerts
                     (new_effects (run_inference_cycle e1 w)
                        (run_inference_cycle e2
                           (run_inference_cycle e1 w))))
             <-> In a (alerts (threshold_rules (num_empty m2)
                                 (num_empty m1)))
                 \/ (a = HealthWarning (avg_confidence m2)
                     /\ (avg_confidence m2 < 3#4)%Q)).
  { intros a. rewrite (posted_iff_emitted e2 _ m2 H2 Hm2).
    unfold cycle_decision.
    rewrite (last_num_empty_after e1 w m1 H1 Hm1).
    apply in_alert_logic. }
  split; [|split].
  - split.
    + intros (a & Ha & Ht). apply Hp in Ha.
      rewrite in_threshold_alerts in Ha.
      destruct Ha as [[(_ & ? & ?)|[(_ & ? & ?)|(-> & _)]]|(-> & _)];
        try discriminate; split; (lia || assumption).
    + intros [Hn Hne].
      destruct (Z.eq_dec (num_empty m2) 4) as [E|N4].
      * exists YellowWarning. split; [|reflexivity].
        apply Hp. rewrite in_threshold_alerts. left. left. auto.
      * exists (RedAlert (num_empty m2)). split; [|reflexivity].
        apply Hp. rewrite in_threshold_alerts. left. right. left.
        split; [reflexivity|]. split; [lia|exact Hne].
  - rewrite Hp, in_threshold_alerts. split.
    + intros [[(E & _)|[(E & _)|(_ & ? & ?)]]|(E & _)];
        try discriminate. auto.
    + intros [? ?]. left. right. right. auto.
  - intros Hsame a Ha. apply Hp in Ha. rewrite in_threshold_alerts in Ha.
    destruct Ha as [[(_ & _ & ?)|[(_ & _ & ?)|(_ & ? & ?)]]|(-> & _)];
      try reflexivity; try contradiction; lia.
Qed.

Lemma second_cycle_alerts_on_change_witness :
  In Recovery
     (posted_alerts
        (new_effects
           (run_inference_cycle (env_one_frame four_empty_pots) fresh_world)
           (run_inference_cycle (env_one_frame mixed_tracks)
              (run_inference_cycle (env_one_frame four_empty_pots)
                                   fresh_world)))).
Proof.
  apply (second_cycle_alerts_on_change
           (env_one_frame four_empty_pots) (env_one_frame mixed_tracks)
           fresh_world _ _ eq_refl eq_refl eq_refl eq_refl).
  vm_compute. split; [reflexivity|discriminate].
Defined.

(** * Further properties of the control flow *)

(** The first frame decides whether any frame was processed. *)
Lemma reaches_report_iff (e : env) :
  reaches_report e = true
  <-> 6 <= hour e < 21
      /\ model_exists e = true /\ model_loads e = true
      /\ stream_opens e = true
      /\ exists img boxes rest, stream e = Tracked img boxes :: rest.
Proof.
  assert (Hfirst : frames_processed (captured e) <> 0%nat
                   <-> exists img boxes rest,
                         stream e = Tracked img boxes :: rest).
  { unfold captured.
    destruct (stream e) as [|[| |img boxes|img boxes] rest];
      cbn [capture_loop frames_processed fst].
    - split; [intros H; now contradiction H|intros (? & ? & ? & [=])].
    - split; [intros H; now contradiction H|intros (? & ? & ? & [=])].
    - split; [intros H; now contradiction H|intros (? & ? & ? & [=])].
    - split; [intros H; now contradiction H|intros (? & ? & ? & [=])].
    - split; [intros _; eauto|intros _].
      change (0 <? FRAMES_TO_PROCESS)%nat with true. cbv iota.
      match goal with
      | |- context [capture_loop rest ?c ?w0] =>
          destruct (capture_loop_bounds rest c w0) as (Hge & _);
          [cbn [frames_processed]; unfold FRAMES_TO_PROCESS; lia|];
          cbn [frames_processed] in Hge; lia
      end. }
  unfold reaches_report, in_hours.
  rewrite !andb_true_iff, !negb_true_iff, orb_false_iff, Nat.eqb_neq,
    Z.ltb_ge, Z.geb_leb, Z.leb_gt, Hfirst.
  tauto.
Qed.

Lemma dispatch_never_logs_no_frames (d : decision) (emb : embed)
    (f : option image) :
  ~ In (Log NoFrames) (dispatch_effects d emb f).
Proof.
  unfold dispatch_effects. destruct (should_alert d), f; simpl;
    intuition discriminate.
Qed.

(** X18.  Between 6 and 20 o'clock, with the model loaded and the stream
    open, the first frame alone decides what the cycle does.  When it is
    read and processed to the end, the cycle posts one telemetry record
    and writes the state once, and never logs that no frame was processed,
    whatever happens on later frames.  When the stream gives nothing or
    the first read fails, the cycle only logs its start and that no frame
    was processed; when the tracker raises on the first frame, also after
    boxes were taken from it, it logs the fault in between; in both cases
    nothing is sent and the state file is left alone. *)
Theorem first_frame_decides_the_cycle (e : env) (w : world) :
  6 <= hour e < 21 ->
  model_exists e = true -> model_loads e = true -> stream_opens e = true ->
  match stream e with
  | Tracked _ _ :: _ =>
      length (telemetry_posts (new_effects w (run_inference_cycle e w)))
      = 1%nat
      /\ length (state_writes (new_effects w (run_inference_cycle e w)))
         = 1%nat
      /\ ~ In (Log NoFrames) (new_effects w (run_inference_cycle e w))
  | [] | ReadFailed :: _ =>
      run_inference_cycle e w
      = World (state_file w) (trace w ++ [Log Starting; Log NoFrames])
  | TrackFailed :: _ | ExtractFailed _ _ :: _ =>
      run_inference_cycle e w
      = World (state_file w)
              (trace w
               ++ [Log Starting; Log InferenceLoopError; Log NoFrames])
  end.
Proof.
  intros Hh He Hl Ho.
  assert (Hhour : (hour e <? 6) || (hour e >=? 21) = false).
  { apply orb_false_iff. split; [apply Z.ltb_ge; lia|].
    rewrite Z.geb_leb. apply Z.leb_gt. lia. }
  destruct (stream e) as [|[| |img boxes|img boxes] rest] eqn:Es.
  - unfold run_inference_cycle. rewrite Hhour, He, Hl, Ho, Es.
    cbn [negb capture_loop frames_processed].
    change (0 <? FRAMES_TO_PROCESS)%nat with true. cbv iota.
    cbn [frames_processed Nat.eqb]. flatten_trace. reflexivity.
  - unfold run_inference_cycle. rewrite Hhour, He, Hl, Ho, Es.
    cbn [negb capture_loop frames_processed].
    change (0 <? FRAMES_TO_PROCESS)%nat with true. cbv iota.
    cbn [frames_processed Nat.eqb]. flatten_trace. reflexivity.
  - unfold run_inference_cycle. rewrite Hhour, He, Hl, Ho, Es.
    cbn [negb capture_loop frames_processed].
    change (0 <? FRAMES_TO_PROCESS)%nat with true. cbv iota.
    cbn [frames_processed Nat.eqb]. flatten_trace. reflexivity.
  - unfold run_inference_cycle. rewrite Hhour, He, Hl, Ho, Es.
    cbn [negb capture_loop frames_processed].
    change (0 <? FRAMES_TO_PROCESS)%nat with true. cbv iota.
    cbn [frames_processed Nat.eqb]. flatten_trace. reflexivity.
  - assert (H : reaches_report e = true).
    { apply reaches_report_iff. repeat split; try assumption; try lia.
      rewrite Es. eauto. }
    destruct (analyse_total (detections (captured e))) as [m Hm].
    destruct (run_completes_summary e w m H Hm) as (_ & Hs & _).
    destruct (run_completes_effects e w m H Hm) as (logs & Hlogs & _ & Hn).
    destruct (capture_logs_quiet logs Hlogs) as [Ht _].
    rewrite Hs. split; [|split; [reflexivity|]].
    + rewrite Hn.
      change (Log Starting :: logs) with ([Log Starting] ++ logs).
      rewrite !telemetry_posts_app, Ht, dispatch_telemetry_posts.
      reflexivity.
    + rewrite Hn, !in_app_iff. intros [Hin|[Hin|[Hin|Hin]]].
      * destruct Hin as [Hin|Hin]; [discriminate|].
        rewrite Forall_forall in Hlogs. apply Hlogs in Hin. discriminate.
      * simpl in Hin. intuition discriminate.
      * now apply dispatch_never_logs_no_frames in Hin.
      * simpl in Hin. intuition discriminate.
Qed.

Lemma first_frame_decides_the_cycle_witness :
  trace (run_inference_cycle env_first_frame_faults fresh_world)
  = [Log Starting; Log InferenceLoopError; Log NoFrames].
Proof.
  assert (Hh : 6 <= hour env_first_frame_faults < 21)
    by (unfold env_first_frame_faults; cbn [hour]; lia).
  pose proof (first_frame_decides_the_cycle env_first_frame_faults
                fresh_world Hh eq_refl eq_refl eq_refl) as H.
  unfold env_first_frame_faults in H. cbn [stream] in H.
  unfold env_first_frame_faults. rewrite H. reflexivity.
Defined.

(** X19.  In a cycle that gets past the early returns the telemetry record
    is posted before anything is sent to Discord, and the state file is
    written last, after every post. *)
Theorem telemetry_first_state_last (e : env) (w : world) :
  reaches_report e = true ->
  exists m before after,
    analyse (detections (captured e)) = Some m
    /\ new_effects w (run_inference_cycle e w)
       = before
         ++ [ThingsboardPost
               (Telemetry (total_potes m) (num_empty m) (pct_empty m)
                          (avg_confidence m) (empty_ids m))]
         ++ after
         ++ [StateWrite (<["last_num_empty"%string := num_empty m]>
                           (load_state (state_file w)))]
    /\ discord_posts before = [] /\ state_writes before = []
    /\ telemetry_posts before = []
    /\ state_writes after = [] /\ telemetry_posts after = [].
Proof.
  intros H.
  destruct (analyse_total (detections (captured e))) as [m Hm].
  destruct (run_completes_effects e w m H Hm) as (logs & Hlogs & _ & Hn).
  destruct (capture_logs_silent logs Hlogs) as (_ & Hs & Hd).
  destruct (capture_logs_quiet logs Hlogs) as (Ht & _).
  exists m, ([Log Starting] ++ logs ++ [Log Result]),
    ([Log ThingsboardOutcome]
     ++ dispatch_effects (cycle_decision m w) (cycle_embed m w)
                         (last_annotated_frame (captured e))).
  split; [exact Hm|]. split.
  - rewrite Hn. unfold cycle_telemetry, next_state.
    cbn [app]. rewrite <- !app_assoc. reflexivity.
  - rewrite !discord_posts_app, !state_writes_app, !telemetry_posts_app,
      Hs, Hd, Ht, dispatch_state_writes, dispatch_telemetry_posts.
    repeat split.
Qed.

Lemma telemetry_first_state_last_witness :
  exists before after t st,
    new_effects fresh_world
      (run_inference_cycle (env_one_frame four_empty_pots) fresh_world)
    = before ++ [ThingsboardPost t] ++ after ++ [StateWrite st]
    /\ discord_posts before = [].
Proof.
  destruct (telemetry_first_state_last (env_one_frame four_empty_pots)
              fresh_world eq_refl)
    as (m & before & after & _ & Hn & Hd & _).
  exists before, after. eexists. eexists. split; [exact Hn|exact Hd].
Defined.
